(** * fprime.fbuild.interaction: scaffolding of new components and ports

    A shallow embedding of [src/fprime/fbuild/interaction.py] and the
    properties of its name validator, build-list locator, build-list mutator,
    artifact merger and interactive port dialogue.

    Python [str] values are modelled as [string] (one [ascii] per character),
    lists as [list], the file system as a finite map from the text of a path
    to the text of the file, and exceptions as an explicit result type. *)

From Stdlib Require Import Ascii.
From stdpp Require Import base list strings gmap sorting.

Local Open Scope char_scope.

(** ** Characters that have no literal form *)

Definition LF : ascii := "010".
Definition CR : ascii := "013".
Definition DQUOTE : ascii := "034".
Definition BACKSLASH : ascii := "092".

Local Close Scope char_scope.

(** ** Text primitives of Python used by the module *)

Module Text.

(** [str.startswith]: [starts_with p s] is [s.startswith(p)]. *)
Fixpoint starts_with (p s : string) : bool :=
  match p, s with
  | EmptyString, _ => true
  | String a p', String b s' => bool_decide (a = b) && starts_with p' s'
  | String _ _, EmptyString => false
  end.

(** The operator [in] on two strings: [str_in n h] is [n in h]. *)
Fixpoint str_in (n h : string) : bool :=
  starts_with n h ||
  match h with
  | EmptyString => false
  | String _ h' => str_in n h'
  end.

(** Whether the character [c] occurs in [s]. *)
Fixpoint has_char (c : ascii) (s : string) : bool :=
  match s with
  | EmptyString => false
  | String a s' => bool_decide (a = c) || has_char c s'
  end.

(** The operator [in] on a list of strings: [addition in lines]. *)
Definition list_in (x : string) (l : list string) : bool :=
  bool_decide (x ∈ l).

(** [len] of a string. *)
Definition len (s : string) : nat := String.length s.

(** [str.join] with the empty separator. *)
Fixpoint join (l : list string) : string :=
  match l with
  | [] => EmptyString
  | x :: l' => x +:+ join l'
  end.

(** The translation a text-mode handle opened with the default [newline]
    applies on reading: CR LF and a lone CR both become LF. *)
Fixpoint universal_newlines (s : string) : string :=
  match s with
  | EmptyString => EmptyString
  | String c s' =>
      if bool_decide (c = CR) then
        match s' with
        | String d s'' =>
            if bool_decide (d = LF) then String LF (universal_newlines s'')
            else String LF (universal_newlines s')
        | EmptyString => String LF EmptyString
        end
      else String c (universal_newlines s')
  end.

(** Cutting a text into lines, each keeping its final LF; the last line
    may lack one. *)
Fixpoint splitlines (s : string) : list string :=
  match s with
  | EmptyString => []
  | String c s' =>
      if bool_decide (c = LF) then String c EmptyString :: splitlines s'
      else match splitlines s' with
           | [] => [String c EmptyString]
           | l :: ls => String c l :: ls
           end
  end.

(** [str.lower] on one ASCII character and on a string. *)
Definition lower_ascii (c : ascii) : ascii :=
  let n := nat_of_ascii c in
  if (65 <=? n) && (n <=? 90) then ascii_of_nat (n + 32) else c.

Fixpoint lower (s : string) : string :=
  match s with
  | EmptyString => EmptyString
  | String c s' => String (lower_ascii c) (lower s')
  end.

(** [str.isnumeric] on ASCII text: at least one character, all of them
    decimal digits. *)
Definition is_digit (c : ascii) : bool :=
  let n := nat_of_ascii c in (48 <=? n) && (n <=? 57).

Fixpoint all_digits (s : string) : bool :=
  match s with
  | EmptyString => true
  | String c s' => is_digit c && all_digits s'
  end.

Definition isnumeric (s : string) : bool :=
  match s with
  | EmptyString => false
  | String _ _ => all_digits s
  end.

(** [int] on a string of decimal digits. *)
Fixpoint int_acc (acc : nat) (s : string) : nat :=
  match s with
  | EmptyString => acc
  | String c s' => int_acc (10 * acc + (nat_of_ascii c - 48)) s'
  end.

Definition int (s : string) : nat := int_acc 0 s.

End Text.

Import Text.

(** ** The name validator *)

Definition invalid_characters : list string :=
  [ "#"; "%"; "&"; "{"; "}"; "/"; String BACKSLASH ""; "<"; ">"; "*"; "?";
    " "; "$"; "!"; "'"; String DQUOTE ""; ":"; "@"; "+"; "`"; "|"; "=" ].

(** The loop [for char in chars: if char in word: return char], falling
    through to [return "valid"]. *)
Fixpoint first_char_in (chars : list string) (word : string) : string :=
  match chars with
  | [] => "valid"
  | char :: chars' =>
      if str_in char word then char else first_char_in chars' word
  end.

Definition is_valid_name (word : string) : string :=
  first_char_in invalid_characters word.

(** ** Effects: exceptions, the file system and the terminal *)

Inductive exn : Type :=
| IndexError
| EOFError
| UnboundLocalError
| AttributeError
| FileNotFoundError.

Inductive result (A : Type) : Type :=
| Return (a : A)
| Raise (e : exn).

Arguments Return {A} a.
Arguments Raise {A} e.

Global Instance result_ret : MRet result := @Return.
Global Instance result_bind : MBind result := fun A B f m =>
  match m with
  | Return a => f a
  | Raise e => Raise e
  end.

(** The world a call runs in: [files] maps the text of a path to the text of
    the file stored there, [stdin] holds the lines still to be typed (without
    their line end, as [input] returns them) and [stdout] the chunks written
    so far, oldest first. *)
Record World : Type := mkWorld {
  files : gmap string string;
  stdin : list string;
  stdout : list string
}.

Definition IO (A : Type) : Type := World → result A * World.

Global Instance io_ret : MRet IO := fun A a w => (Return a, w).
Global Instance io_bind : MBind IO := fun A B f m w =>
  match m w with
  | (Return a, w') => f a w'
  | (Raise e, w') => (Raise e, w')
  end.

Definition raise {A} (e : exn) : IO A := fun w => (Raise e, w).

Definition lift {A} (r : result A) : IO A := fun w => (r, w).

Definition write_out (s : string) : IO unit := fun w =>
  (Return (), mkWorld (files w) (stdin w) (stdout w ++ [s])).

(** [print(s)] *)
Definition print (s : string) : IO unit := write_out (s +:+ String LF "").

(** [input(msg)]: the prompt is written, then one line is taken. *)
Definition input (msg : string) : IO string := fun w =>
  match stdin w with
  | [] => (Raise EOFError, mkWorld (files w) [] (stdout w ++ [msg]))
  | x :: rest => (Return x, mkWorld (files w) rest (stdout w ++ [msg]))
  end.

(** What [readlines] returns on a text-mode handle over [text]. *)
Definition lines_of (text : string) : list string :=
  splitlines (universal_newlines text).

(** [with open(path, "r") as f: f.readlines()] *)
Definition readlines (path : string) : IO (list string) := fun w =>
  match files w !! path with
  | Some text => (Return (lines_of text), w)
  | None => (Raise FileNotFoundError, w)
  end.

(** [with open(path, "w") as f: f.write(text)] *)
Definition write_file (path text : string) : IO unit := fun w =>
  (Return (), mkWorld (<[path := text]> (files w)) (stdin w) (stdout w)).

(** [with open(path, "a") as f: f.write(text)] *)
Definition append_file (path text : string) : IO unit := fun w =>
  (Return (),
   mkWorld (<[path := default "" (files w !! path) +:+ text]> (files w))
           (stdin w) (stdout w)).

(** [os.remove(path)] *)
Definition os_remove (path : string) : IO unit := fun w =>
  match files w !! path with
  | Some _ => (Return (), mkWorld (delete path (files w)) (stdin w) (stdout w))
  | None => (Raise FileNotFoundError, w)
  end.

(** ** confirm *)

(** The loop of [confirm] over the lines still to be typed: [ins] is what is
    left of standard input and [out] what has been written. *)
Fixpoint confirm_loop (msg : string) (ins out : list string)
  : result bool * list string * list string :=
  match ins with
  | [] => (Raise EOFError, [], out ++ [msg])
  | confirm_input :: ins' =>
      if bool_decide (lower confirm_input ∈ ["y"; "yes"]) then
        (Return true, ins', out ++ [msg])
      else if bool_decide (lower confirm_input ∈ ["n"; "no"]) then
        (Return false, ins', out ++ [msg])
      else
        confirm_loop msg ins'
          ((out ++ [msg]) ++
           [(confirm_input +:+ " is invalid.  Please use 'yes' or 'no'")
              +:+ String LF ""])
  end.

Definition confirm (msg : string) : IO bool := fun w =>
  let '(r, ins, out) := confirm_loop msg (stdin w) (stdout w) in
  (r, mkWorld (files w) ins out).

(** ** add_to_cmake *)

Definition marker : string := "add_fprime_subdirectory".

(** [while marker not in lines[index]: index += 1], where [rest] is
    [lines[index:]]; reading past the end raises [IndexError]. *)
Fixpoint skip_unmarked (rest : list string) (index : nat) : result nat :=
  match rest with
  | [] => Raise IndexError
  | line :: rest' =>
      if negb (str_in marker line) then skip_unmarked rest' (S index)
      else Return index
  end.

(** [while marker in lines[index]: index += 1], with the same convention. *)
Fixpoint skip_marked (rest : list string) (index : nat) : result nat :=
  match rest with
  | [] => Raise IndexError
  | line :: rest' =>
      if str_in marker line then skip_marked rest' (S index)
      else Return index
  end.

Definition find_insertion_index (lines : list string) : result nat :=
  index ← skip_unmarked lines 0;
  skip_marked (drop index lines) index.

(** [lines.insert(index, x)] for a non-negative index. *)
Definition list_insert_at {A} (index : nat) (x : A) (l : list A) : list A :=
  take index l ++ x :: drop index l.

Definition directive_head : string :=
  "add_fprime_subdirectory(" +:+ String DQUOTE "${CMAKE_CURRENT_LIST_DIR}/".

Definition directive_tail : string :=
  "/" +:+ String DQUOTE (")" +:+ String LF "").

Definition directive (comp_path : string) : string :=
  directive_head +:+ comp_path +:+ directive_tail.

Definition found_message (list_file : string) : string :=
  "[INFO] Found CMakeLists.txt at '" +:+ list_file +:+ "'".

Definition confirm_prompt (list_file comp_path : string) : string :=
  "Add component " +:+ comp_path +:+ " to " +:+ list_file +:+ " "
    +:+ "at end of file before topology inclusion?" +:+ "?".

Definition add_to_cmake (list_file comp_path : string) : IO bool :=
  _ ← print (found_message list_file);
  lines ← readlines list_file;
  index ← lift (find_insertion_index lines);
  confirmed ← confirm (confirm_prompt list_file comp_path);
  if negb confirmed then mret false
  else
    let addition := directive comp_path in
    if list_in addition lines then
      _ ← print "Component already added to CMakeLists.txt";
      mret true
    else
      _ ← write_file list_file (join (list_insert_at index addition lines));
      mret true.

(** ** find_nearest_cmake_lists *)

(** A pure path as [pathlib] holds it: whether it starts at the root, and
    its components in order. [Path("/")] and [Path(".")] have no
    components. *)
Record Path : Type := mkPath {
  anchored : bool;
  names : list string
}.

Global Instance Path_eq_dec : EqDecision Path.
Proof. solve_decision. Defined.

(** [p.parent]: the root and the empty relative path are their own parent. *)
Definition parent (p : Path) : Path :=
  mkPath (anchored p) (removelast (names p)).

(** [p / name] for a single component [name]. *)
Definition child (p : Path) (name : string) : Path :=
  mkPath (anchored p) (names p ++ [name]).

(** The [while] loop of the search, for a file system whose regular files
    are those [is_file] accepts. The answer is [None] when [fuel] iterations
    did not finish the loop, [Some (Some f)] when the loop returned the file
    [f] from the function, and [Some None] when the loop ended without a
    match. *)
Fixpoint search_up (fuel : nat) (is_file : Path → bool)
    (proj_root : option Path) (test_path : Path) : option (option Path) :=
  match fuel with
  | 0 => None
  | S fuel' =>
      if match proj_root with
         | None => false
         | Some root => bool_decide (test_path ≠ parent root)
         end
      then
        let cmake_list_file := child test_path "CMakeLists.txt" in
        if is_file cmake_list_file then Some (Some cmake_list_file)
        else search_up fuel' is_file proj_root (parent test_path)
      else Some None
  end.

(** The [for test_path, end_path in passes] loop; [end_path] is bound and
    never read. *)
Fixpoint search_passes (fuel : nat) (is_file : Path → bool)
    (proj_root : option Path) (passes : list (Path * Path))
  : option (result (option Path)) :=
  match passes with
  | [] => Some (Return None)
  | (test_path, end_path) :: passes' =>
      match search_up fuel is_file proj_root test_path with
      | None => None
      | Some (Some cmake_list_file) => Some (Return (Some cmake_list_file))
      | Some None => search_passes fuel is_file proj_root passes'
      end
  end.

(** [proj_root] is [None] for Python's [None]. The list of passes is built
    before the loop starts, and building it reads [proj_root.parent]. *)
Definition find_nearest_cmake_lists (fuel : nat) (is_file : Path → bool)
    (component_dir deployment : Path) (proj_root : option Path)
  : option (result (option Path)) :=
  let test_path := parent component_dir in
  match proj_root with
  | None => Some (Raise AttributeError)
  | Some root =>
      search_passes fuel is_file proj_root
        [(test_path, root); (deployment, parent root)]
  end.

(** ** run_impl *)

(** [l.sort(key=len)]: Python's sort is stable, so equal keys keep their
    order; insertion from the right gives that order. *)
Fixpoint insert_by_len (x : string) (l : list string) : list string :=
  match l with
  | [] => [x]
  | y :: l' => if len x <=? len y then x :: y :: l' else y :: insert_by_len x l'
  end.

Definition sort_by_len (l : list string) : list string :=
  foldr insert_by_len [] l.

(** [common[0] if common else cpp_files[0]], on the sorted candidates. *)
Definition choose_cpp_dest (cpp_files : list string) : option string :=
  let common := filter (λ name, str_in "Common" name = true) cpp_files in
  match common with
  | c :: _ => Some c
  | [] => head cpp_files
  end.

(** The body of the copy loop for one pair. *)
Definition copy_without_header (src dest : string) : IO unit :=
  lines ← readlines src;
  let lines := drop 11 lines in
  append_file dest (join lines).

(** A [for] loop over a list, for its effects. *)
Fixpoint for_each {A} (l : list A) (body : A → IO unit) : IO unit :=
  match l with
  | [] => mret ()
  | x :: l' => _ ← body x; for_each l' body
  end.

(** Lines 72 to 83: the merge of the stubs into the destinations. *)
Definition merge_stubs (hpp_src cpp_src hpp_dest cpp_dest : string) : IO bool :=
  _ ← for_each [(hpp_src, hpp_dest); (cpp_src, cpp_dest)]
        (λ '(src, dest), copy_without_header src dest);
  let removals := [hpp_src; cpp_src] in
  _ ← for_each removals os_remove;
  mret true.

Section RunImpl.

(** The collaborators of [run_impl] outside this module: loading the build,
    executing the target, and [glob.glob] on a pattern. *)
Variable build_load : string → IO unit.
Variable build_execute : string → IO unit.
Variable glob : string → IO (list string).

Definition run_impl (path : string) : IO bool :=
  _ ← build_load path;
  hpp_files ← glob (path +:+ "/*.hpp");
  cpp_files ← glob (path +:+ "/*.cpp");
  let cpp_files := sort_by_len cpp_files in
  match hpp_files, choose_cpp_dest cpp_files with
  | hpp_dest :: _, Some cpp_dest =>
      confirmed ← confirm ("Generate implementations and merge into "
                             +:+ hpp_dest +:+ " and " +:+ cpp_dest +:+ "?");
      if negb confirmed then mret false
      else
        _ ← build_execute path;
        hpp_files_template ← glob (path +:+ "/*.hpp-template");
        cpp_files_template ← glob (path +:+ "/*.cpp-template");
        match hpp_files_template, cpp_files_template with
        | hpp_src :: _, cpp_src :: _ =>
            merge_stubs hpp_src cpp_src hpp_dest cpp_dest
        | _, _ =>
            _ ← print "[WARNING] Failed to find generated .cpp-template or .hpp-template files";
            mret false
        end
  | _, _ =>
      _ ← print "[WARNING] Failed to find .cpp and .hpp destination files for implementation.";
      mret false
  end.

End RunImpl.

(** [str.endswith]: [ends_with suffix s]. *)
Definition ends_with (suffix s : string) : bool :=
  starts_with (String.rev suffix) (String.rev s).

(** ** get_port_input *)

(** The values a context dictionary holds. *)
Inductive pyval : Type :=
| PStr (s : string)
| PInt (n : nat).

Global Instance pyval_eq_dec : EqDecision pyval.
Proof. solve_decision. Defined.

Definition defaults : gmap string pyval :=
  {[ "port_name" := PStr "ExamplePort";
     "short_description" := PStr "Example usage of port";
     "dir_name" := PStr "example_directory";
     "arg_number" := PInt 1 ]}.

(** The loops [while not valid: x = input(prompt); char = is_valid_name(x);
    if char != "valid": print(...) else: valid = True], over the lines still
    to be typed; [what] is the word that ends the complaint. *)
Fixpoint ask_name_loop (prompt what : string) (ins out : list string)
  : result string * list string * list string :=
  match ins with
  | [] => (Raise EOFError, [], out ++ [prompt])
  | answer :: ins' =>
      let char := is_valid_name answer in
      if bool_decide (char ≠ "valid") then
        ask_name_loop prompt what ins'
          ((out ++ [prompt]) ++
           [("'" +:+ char +:+ "' is not a valid character. Enter a new "
               +:+ what +:+ ":") +:+ String LF ""])
      else (Return answer, ins', out ++ [prompt])
  end.

Definition ask_name (prompt what : string) : IO string := fun w =>
  let '(r, ins, out) := ask_name_loop prompt what (stdin w) (stdout w) in
  (r, mkWorld (files w) ins out).

(** The three branches that may bind the local [arg_number]; [None] is the
    local left unbound. *)
Definition parse_arg_number (string_arg_number : string) : IO (option nat) :=
  if bool_decide (string_arg_number = "") then mret (Some 1)
  else if negb (isnumeric string_arg_number) then
    _ ← print "[ERROR] You have not entered a valid number";
    mret None
  else mret (Some (int string_arg_number)).

(** Reading a local variable. *)
Definition read_local {A} (v : option A) : IO A :=
  match v with
  | Some a => mret a
  | None => raise UnboundLocalError
  end.

(** [for key in values: if values[key] == "": values[key] = defaults[key]];
    every key of [values] is a key of [defaults]. *)
Definition fill_defaults (values : gmap string pyval) : gmap string pyval :=
  map_imap (λ key v,
    if bool_decide (v = PStr "") then defaults !! key else Some v) values.

Definition get_port_input : IO (gmap string pyval) :=
  port_name ← ask_name "Port Name [ExamplePort]: " "port name";
  short_description ← input "Short Description [Example usage of port]: ";
  dir_name ← ask_name "Directory Name [example_directory]: " "directory name";
  string_arg_number ← input "Number of arguments [1]: ";
  arg_number ← parse_arg_number string_arg_number;
  arg_number ← read_local arg_number;
  let values : gmap string pyval :=
    {[ "port_name" := PStr port_name;
       "short_description" := PStr short_description;
       "dir_name" := PStr dir_name;
       "arg_number" := PInt arg_number ]} in
  mret (fill_defaults values).

(** ** add_port_to_cmake *)

Definition source_files_line : string := "set(SOURCE_FILES" +:+ String LF "".

(** [line = lines[index]; while line != "set(SOURCE_FILES\n": index += 1;
    line = lines[index]], where [rest] is [lines[index:]]; reading past the
    end raises [IndexError]. *)
Fixpoint skip_to_source_files (rest : list string) (index : nat) : result nat :=
  match rest with
  | [] => Raise IndexError
  | line :: rest' =>
      if bool_decide (line ≠ source_files_line)
      then skip_to_source_files rest' (S index)
      else Return index
  end.

Definition port_entry (comp_path : string) : string :=
  String DQUOTE "${CMAKE_CURRENT_LIST_DIR}/" +:+ comp_path +:+ directive_tail.

Definition port_prompt (list_file comp_path : string) : string :=
  "Add component " +:+ comp_path +:+ " to " +:+ list_file +:+ " "
    +:+ "ports in CMakeLists.txt" +:+ "?".

Definition add_port_to_cmake (list_file comp_path : string) : IO bool :=
  _ ← print (found_message list_file);
  lines ← readlines list_file;
  index ← lift (skip_to_source_files lines 0);
  let index := S index in
  confirmed ← confirm (port_prompt list_file comp_path);
  if negb confirmed then mret false
  else
    let addition := port_entry comp_path in
    _ ← write_file list_file (join (list_insert_at index addition lines));
    mret true.

(** ** add_unit_tests *)

Definition test_files : list string :=
  [ "Tester.hpp"; "Tester.cpp"; "TesterBase.hpp"; "TesterBase.cpp";
    "GTestBase.hpp"; "GTestBase.cpp"; "TestMain.cpp" ].

(** [os.path.isfile(path)] *)
Definition os_path_isfile (path : string) : IO bool := fun w =>
  (Return (bool_decide (is_Some (files w !! path))), w).

(** [os.rename(src, dst)] between regular files: an existing [dst] is
    replaced. Directories are not part of the file system modelled here; the
    directory of [dst] is taken to exist. *)
Definition os_rename (src dst : string) : IO unit := fun w =>
  match files w !! src with
  | Some text =>
      (Return (),
       mkWorld (<[dst := text]> (delete src (files w))) (stdin w) (stdout w))
  | None => (Raise FileNotFoundError, w)
  end.

(** [str(Path("test", "ut", file))] *)
Definition test_destination (file : string) : string := "test/ut/" +:+ file.

(** The body of the loop that moves the generated test files, and the loop,
    run from the unit directory. *)
Definition move_test_file (file : string) : IO unit :=
  present ← os_path_isfile file;
  if (present : bool) then
    let new_name := test_destination file in
    os_rename file new_name
  else mret ().

Definition move_test_files : IO unit := for_each test_files move_test_file.

Section AddUnitTests.

(** Outside this module: [os.chdir], loading and executing the build with
    the unit-test flag, and [shutil.rmtree]. *)
Variable os_chdir : string → IO unit.
Variable build_load_ut : string → IO unit.
Variable build_execute_ut : string → IO unit.
Variable shutil_rmtree : string → IO unit.

Definition add_unit_tests (comp_path : string) : IO unit :=
  _ ← os_chdir comp_path;
  confirmed ← confirm "Would you like to generate unit tests?: ";
  if (confirmed : bool) then
    _ ← build_load_ut comp_path;
    _ ← build_execute_ut comp_path;
    move_test_files
  else shutil_rmtree "test".

End AddUnitTests.

(** ** make_namespace *)

(** [p.relative_to(other)]; [None] stands for the [ValueError] raised when
    [other] is not a prefix of [p]. *)
Definition relative_to (p other : Path) : option Path :=
  if bool_decide (anchored p = anchored other
                  ∧ take (length (names other)) (names p) = names other)
  then Some (mkPath false (drop (length (names other)) (names p)))
  else None.

(** [p.name]: the last component, empty for the root and for [Path(".")]. *)
Definition path_name (p : Path) : string := List.last (names p) "".

(** [Path(name, rel)] for a single component [name], possibly empty, and a
    relative path [rel]. *)
Definition path_under (name : string) (rel : Path) : Path :=
  mkPath false ((if bool_decide (name = "") then [] else [name]) ++ names rel).

(** [sep.join(parts)] *)
Fixpoint join_sep (sep : string) (parts : list string) : string :=
  match parts with
  | [] => ""
  | [x] => x
  | x :: parts' => x +:+ sep +:+ join_sep sep parts'
  end.

(** [str(p)] *)
Definition path_str (p : Path) : string :=
  if anchored p then "/" +:+ join_sep "/" (names p)
  else match names p with
       | [] => "."
       | _ => join_sep "/" (names p)
       end.

(** [s.replace(os.path.sep, "::")] *)
Fixpoint replace_sep (s : string) : string :=
  match s with
  | EmptyString => EmptyString
  | String c s' =>
      if bool_decide (c = "/"%char) then "::" +:+ replace_sep s'
      else String c (replace_sep s')
  end.

Definition make_namespace (deployment cwd : Path) : option string :=
  namespace_path ← relative_to cwd deployment;
  let deployment_dir := path_name deployment in
  let whole_path := path_under deployment_dir namespace_path in
  let namespace := parent whole_path in
  let namespace_formatted := replace_sep (path_str namespace) in
  Some namespace_formatted.

(** [glob.glob] as a function of the files present: it reads the file
    system and changes nothing. *)
Definition glob_with (found : string → gmap string string → list string)
  : string → IO (list string) :=
  λ pattern w, (Return (found pattern (files w)), w).

(** ** Vocabulary of the statements *)

(** A line that ends in its only LF, and one that has none. *)
Definition terminated (x : string) : Prop :=
  ∃ body, x = body +:+ String LF "" ∧ has_char LF body = false.

Definition unterminated (x : string) : Prop :=
  x ≠ "" ∧ has_char LF x = false.

(** The shape of what [readlines] returns: every line but the last is
    terminated. *)
Fixpoint lines_shape (l : list string) : Prop :=
  match l with
  | [] => True
  | x :: l' =>
      match l' with
      | [] => terminated x ∨ unterminated x
      | _ :: _ => terminated x ∧ lines_shape l'
      end
  end.

(** A line that carries the inclusion marker, and one that does not. *)
Definition marked (line : string) : Prop := str_in marker line = true.
Definition unmarked (line : string) : Prop := str_in marker line = false.

(** A build list on which the scan ends: some unmarked lines, a run of
    marked lines that is not empty, then an unmarked line. *)
Definition has_insertion_point (lines : list string) : Prop :=
  ∃ pre block next rest,
    lines = pre ++ block ++ next :: rest ∧ Forall unmarked pre
    ∧ block ≠ [] ∧ Forall marked block ∧ unmarked next.

(** Answers that [confirm] takes for yes and for no. *)
Definition accepts (answer : string) : Prop := lower answer ∈ ["y"; "yes"].
Definition declines (answer : string) : Prop := lower answer ∈ ["n"; "no"].

(** What the two messages of [add_to_cmake] leave on the terminal. *)
Definition found_line (list_file : string) : string :=
  found_message list_file +:+ String LF "".

Definition already_added_line : string :=
  "Component already added to CMakeLists.txt" +:+ String LF "".

(** The order of scanning as the specification words it: the punctuation
    first, the space last. Kept apart from [invalid_characters], which is the
    order of the code. *)
Definition specified_order : list string :=
  [ "#"; "%"; "&"; "{"; "}"; "/"; String BACKSLASH ""; "<"; ">"; "*"; "?";
    "$"; "!"; "'"; String DQUOTE ""; ":"; "@"; "+"; "`"; "|"; "="; " " ].

(** The search as the docstring of [find_nearest_cmake_lists] words it:
    each pass climbs until its own [end_path], the project root for the
    first pass and the parent of the root for the second. Kept apart from
    [search_up], which is the loop of the code. *)
Fixpoint documented_search_up (fuel : nat) (is_file : Path → bool)
    (end_path test_path : Path) : option (option Path) :=
  match fuel with
  | 0 => None
  | S fuel' =>
      if bool_decide (test_path ≠ end_path) then
        let cmake_list_file := child test_path "CMakeLists.txt" in
        if is_file cmake_list_file then Some (Some cmake_list_file)
        else documented_search_up fuel' is_file end_path (parent test_path)
      else Some None
  end.

(** The directory reached from [p] by the components [l]. *)
Definition descend (p : Path) (l : list string) : Path :=
  mkPath (anchored p) (names p ++ l).

(** Order of two path names by length, as [sort(key=len)] compares them. *)
Definition len_le (a b : string) : Prop := len a ≤ len b.

(** An answer that [confirm] takes for neither, and what it prints then. *)
Definition undecided (answer : string) : Prop :=
  ¬ accepts answer ∧ ¬ declines answer.

Definition complaint (answer : string) : string :=
  (answer +:+ " is invalid.  Please use 'yes' or 'no'") +:+ String LF "".

(** What [ask_name] prints for a rejected answer. *)
Definition name_complaint (what answer : string) : string :=
  ("'" +:+ is_valid_name answer +:+ "' is not a valid character. Enter a new "
     +:+ what +:+ ":") +:+ String LF "".

(** What one rejected answer adds to the terminal: the prompt that asked for
    it and the complaint about it. *)
Definition reprompts (msg : string) (say : string → string)
    (bad : list string) : list string :=
  flat_map (λ answer, [msg; say answer]) bad.

(** [n] steps up from [p]. *)
Fixpoint ancestor (n : nat) (p : Path) : Path :=
  match n with
  | 0 => p
  | S n' => ancestor n' (parent p)
  end.

(** The question [run_impl] asks, and its two warnings as printed. *)
Definition impl_prompt (hpp_dest cpp_dest : string) : string :=
  "Generate implementations and merge into "
    +:+ hpp_dest +:+ " and " +:+ cpp_dest +:+ "?".

Definition no_destination_line : string :=
  "[WARNING] Failed to find .cpp and .hpp destination files for implementation."
    +:+ String LF "".

Definition no_stub_line : string :=
  "[WARNING] Failed to find generated .cpp-template or .hpp-template files"
    +:+ String LF "".

(** The files after a merge of the stubs [hpp_src] and [cpp_src], of texts
    [stub_h] and [stub_c], into [hpp_dest] and [cpp_dest]. *)
Definition merged (m : gmap string string)
    (hpp_src cpp_src hpp_dest cpp_dest stub_h stub_c : string)
  : gmap string string :=
  delete cpp_src (delete hpp_src
    (<[cpp_dest := default "" (m !! cpp_dest)
                     +:+ join (drop 11 (lines_of stub_c))]>
       (<[hpp_dest := default "" (m !! hpp_dest)
                        +:+ join (drop 11 (lines_of stub_h))]> m))).

(** The answer kept for a text field: the default when nothing was typed. *)
Definition or_default (typed fallback : string) : string :=
  if bool_decide (typed = "") then fallback else typed.

(** ** Sample inputs *)

Definition sample_lists : string :=
  "project(Ref)
add_fprime_subdirectory(A)
add_fprime_subdirectory(B)
include(Top)
".

Definition sample_libraries : string :=
  "add_fprime_subdirectory(A)
" +:+ directive "Comp".

Definition sample_registered : string :=
  "project(Ref)
" +:+ directive "Comp" +:+ "include(Top)
".

Definition sample_stub : string :=
  "// header 1
// header 2
// header 3
// header 4
// header 5
// header 6
// header 7
// header 8
// header 9
// header 10
// header 11
void handler();
void other();
".

Definition sample_unit : gmap string string :=
  {[ "u/C.hpp-template" := sample_stub;
     "u/C.cpp-template" := sample_stub;
     "u/C.hpp" := "";
     "u/C.cpp" := "" ]}.

(** The directories of the locator's scenario: the project root [/proj],
    the deployment [/proj/B] and the component [/proj/B/C]. *)
Definition dir_A : Path := mkPath true ["proj"].
Definition dir_B : Path := child dir_A "B".
Definition dir_C : Path := child dir_B "C".

(** A component [/proj/X/C] outside the deployment, and a file system with
    a build list at the root and one at the deployment. *)
Definition dir_X : Path := child dir_A "X".
Definition dir_XC : Path := child dir_X "C".

Definition at_A_and_B (p : Path) : bool :=
  bool_decide (p = child dir_A "CMakeLists.txt")
  || bool_decide (p = child dir_B "CMakeLists.txt").

(** A path with a line break in a component. *)
Definition broken_path : string := "a
b".

(** A file system whose only build list is the one of the project root. *)
Definition only_at_A (p : Path) : bool :=
  bool_decide (p = child dir_A "CMakeLists.txt").

Definition sample_port_lists : string :=
  "set(SOURCE_FILES
  PingPortAi.xml
)
register_fprime_module()
".

(** Stand-ins for the collaborators of [run_impl] on a unit [u]: a build
    that loads without effect and whose target writes the two stubs, and a
    [glob] that lists, among the names it knows, those present. *)
Definition sample_unit_before : gmap string string :=
  {[ "u/C.hpp" := "class C;
"; "u/C.cpp" := ""; "u/CCommon.cpp" := "" ]}.

Definition sample_build_load (path : string) : IO unit := mret ().

Definition sample_build_execute (path : string) : IO unit := fun w =>
  (Return (),
   mkWorld (<["u/C.cpp-template" := sample_stub]>
              (<["u/C.hpp-template" := sample_stub]> (files w)))
     (stdin w) (stdout w)).

Definition sample_found (pattern : string) (m : gmap string string)
  : list string :=
  filter (λ name, is_Some (m !! name))
    (if bool_decide (pattern = "u/*.hpp") then ["u/C.hpp"]
     else if bool_decide (pattern = "u/*.cpp") then ["u/CCommon.cpp"; "u/C.cpp"]
     else if bool_decide (pattern = "u/*.hpp-template")
          then ["u/C.hpp-template"]
     else if bool_decide (pattern = "u/*.cpp-template")
          then ["u/C.cpp-template"]
     else []).

(** A build whose target writes the header stub only. *)
Definition sample_build_half (path : string) : IO unit := fun w =>
  (Return (),
   mkWorld (<["u/C.hpp-template" := sample_stub]> (files w))
     (stdin w) (stdout w)).

(** The worlds of the sample run: before it, with the answers still to be
    typed, and as the build leaves it after an accepted confirmation. *)
Definition sample_start (answers : list string) : World :=
  mkWorld sample_unit_before answers [].

Definition sample_built : World :=
  mkWorld (<["u/C.cpp-template" := sample_stub]>
             (<["u/C.hpp-template" := sample_stub]> sample_unit_before))
    [] [impl_prompt "u/C.hpp" "u/CCommon.cpp"].

Definition sample_half_built : World :=
  mkWorld (<["u/C.hpp-template" := sample_stub]> sample_unit_before)
    [] [impl_prompt "u/C.hpp" "u/CCommon.cpp"].

Definition sample_plain : string :=
  "project(Ref)
include(Top)
".

(** * Properties *)

(** ** Text *)

Section TextFacts.

Implicit Types (c : ascii) (s t : string) (l : list string).

Lemma app_cons c s t : String c s +:+ t = String c (s +:+ t).
Proof. reflexivity. Qed.

Lemma app_empty_l t : "" +:+ t = t.
Proof. reflexivity. Qed.

Lemma app_empty_r s : s +:+ "" = s.
Proof. induction s as [|c s IH]; [done|]. by rewrite app_cons, IH. Qed.

Lemma app_assoc_str s t u : (s +:+ t) +:+ u = s +:+ (t +:+ u).
Proof.
  induction s as [|c s IH]; [done|]. by rewrite !app_cons, IH.
Qed.

Lemma has_char_app c s t :
  has_char c (s +:+ t) = has_char c s || has_char c t.
Proof.
  induction s as [|a s IH]; [done|].
  rewrite app_cons. simpl. rewrite IH. by rewrite orb_assoc.
Qed.

Lemma join_app l1 l2 : join (l1 ++ l2) = join l1 +:+ join l2.
Proof.
  induction l1 as [|x l1 IH]; [done|].
  simpl. by rewrite IH, app_assoc_str.
Qed.

Lemma join_insert_at i x l :
  join (list_insert_at i x l) = join (take i l) +:+ x +:+ join (drop i l).
Proof. unfold list_insert_at. by rewrite join_app. Qed.

Lemma has_char_join_insert_at c i x l :
  has_char c (join (list_insert_at i x l))
  = has_char c x || has_char c (join l).
Proof.
  rewrite join_insert_at, !has_char_app.
  rewrite <- (take_drop i l) at 3. rewrite join_app, has_char_app.
  destruct (has_char c x), (has_char c (join (take i l))); simpl; try done.
Qed.

Lemma join_splitlines s : join (splitlines s) = s.
Proof.
  induction s as [|c s IH]; [done|]. simpl.
  case_bool_decide.
  - simpl. by rewrite IH.
  - destruct (splitlines s) as [|x xs]; simpl in *.
    + by rewrite <- IH.
    + by rewrite <- IH.
Qed.

Lemma terminated_cons c x : c ≠ LF → terminated x → terminated (String c x).
Proof.
  intros Hc (body & -> & Hb). exists (String c body). split; [done|].
  simpl. rewrite Hb. by case_bool_decide.
Qed.

Lemma unterminated_cons c x :
  c ≠ LF → unterminated x → unterminated (String c x).
Proof.
  intros Hc [_ Hx]. split; [done|]. simpl. rewrite Hx. by case_bool_decide.
Qed.

Lemma terminated_LF : terminated (String LF "").
Proof. by exists "". Qed.

Lemma splitlines_shape s : lines_shape (splitlines s).
Proof.
  induction s as [|c s IH]; [done|]. simpl.
  case_bool_decide as Hc.
  - subst c. destruct (splitlines s) as [|y ys] eqn:E.
    + left. apply terminated_LF.
    + split; [apply terminated_LF | done].
  - destruct (splitlines s) as [|y ys] eqn:E.
    + right. split; [done|]. simpl. by case_bool_decide.
    + simpl in IH. destruct ys as [|z zs].
      * destruct IH as [IH|IH];
          [left; by apply terminated_cons
          |right; by apply unterminated_cons].
      * destruct IH as [IH1 IH2]. split; [by apply terminated_cons | done].
Qed.

Lemma splitlines_terminated x s :
  terminated x → splitlines (x +:+ s) = x :: splitlines s.
Proof.
  intros (body & -> & Hb). induction body as [|c body IH].
  - reflexivity.
  - simpl in Hb. apply orb_false_elim in Hb as [Hc Hb].
    apply bool_decide_eq_false in Hc.
    rewrite !app_cons. simpl. case_bool_decide; [done|].
    rewrite <- app_cons. by rewrite (IH Hb).
Qed.

Lemma splitlines_unterminated x : unterminated x → splitlines x = [x].
Proof.
  intros [Hne Hx]. induction x as [|c x IH]; [done|].
  simpl in Hx. apply orb_false_elim in Hx as [Hc Hx].
  apply bool_decide_eq_false in Hc.
  simpl. case_bool_decide; [done|].
  destruct x as [|d x]; [done|]. by rewrite IH.
Qed.

Lemma splitlines_join l : lines_shape l → splitlines (join l) = l.
Proof.
  induction l as [|x l IH]; [done|]. intros Hl. simpl in Hl.
  destruct l as [|y l].
  - simpl. rewrite app_empty_r. destruct Hl as [Hl|Hl].
    + rewrite <- (app_empty_r x) at 1.
      by rewrite (splitlines_terminated x "" Hl).
    + by apply splitlines_unterminated.
  - destruct Hl as [Hx Hl]. change (join (x :: y :: l)) with (x +:+ join (y :: l)).
    rewrite (splitlines_terminated _ _ Hx). by rewrite (IH Hl).
Qed.

Lemma lines_shape_cons x l :
  terminated x → lines_shape l → lines_shape (x :: l).
Proof. intros Hx Hl. destruct l; simpl; auto. Qed.

(** Inserting a terminated line before an existing one keeps the shape. *)
Lemma lines_shape_insert_at i x l :
  lines_shape l → i < length l → terminated x →
  lines_shape (list_insert_at i x l).
Proof.
  unfold list_insert_at. revert i. induction l as [|y l IH]; intros i Hl Hi Hx.
  - simpl in Hi. lia.
  - destruct i as [|i].
    + simpl. split; [done|]. exact Hl.
    + simpl in Hi. destruct l as [|z l]; [simpl in Hi; lia|].
      destruct Hl as [Hy Hl].
      change (lines_shape (y :: (take i (z :: l) ++ x :: drop i (z :: l)))).
      apply lines_shape_cons; [done|]. apply IH; [done|lia|done].
Qed.

Lemma universal_newlines_id s :
  has_char CR s = false → universal_newlines s = s.
Proof.
  induction s as [|c s IH]; [done|]. simpl. intros H.
  apply orb_false_elim in H as [Hc Hs].
  rewrite Hc. by rewrite (IH Hs).
Qed.

Lemma universal_newlines_no_CR s :
  has_char CR (universal_newlines s) = false.
Proof.
  cut (has_char CR (universal_newlines s) = false
       ∧ ∀ c, has_char CR (universal_newlines (String c s)) = false).
  { tauto. }
  induction s as [|d s [IH1 IH2]].
  - split; [done|]. intros c. simpl.
    case_bool_decide as E; simpl; [reflexivity|].
    by rewrite bool_decide_eq_false_2.
  - split; [apply IH2|]. intros c.
    change (universal_newlines (String c (String d s))) with
      (if bool_decide (c = CR) then
         if bool_decide (d = LF) then String LF (universal_newlines s)
         else String LF (universal_newlines (String d s))
       else String c (universal_newlines (String d s))).
    case_bool_decide as Ec; [case_bool_decide as Ed|].
    + change (has_char CR (universal_newlines s) = false). exact IH1.
    + change (has_char CR (universal_newlines (String d s)) = false).
      apply IH2.
    + change (bool_decide (c = CR)
              || has_char CR (universal_newlines (String d s)) = false).
      by rewrite bool_decide_eq_false_2, IH2.
Qed.

End TextFacts.


(** ** The scan for the insertion point *)

Section Scan.

Implicit Types (line : string) (pre block rest lines : list string).

Lemma skip_unmarked_app pre rest i :
  Forall unmarked pre →
  skip_unmarked (pre ++ rest) i = skip_unmarked rest (i + length pre).
Proof.
  intros H. revert i. induction H as [|x pre Hx _ IH]; intros i; simpl.
  - f_equal. lia.
  - unfold unmarked in Hx. rewrite Hx. simpl. rewrite IH. f_equal. lia.
Qed.

Lemma skip_marked_app block rest i :
  Forall marked block →
  skip_marked (block ++ rest) i = skip_marked rest (i + length block).
Proof.
  intros H. revert i. induction H as [|x block Hx _ IH]; intros i; simpl.
  - f_equal. lia.
  - unfold marked in Hx. rewrite Hx. rewrite IH. f_equal. lia.
Qed.

Lemma skip_unmarked_all lines i :
  Forall unmarked lines → skip_unmarked lines i = Raise IndexError.
Proof.
  intros H. revert i. induction H as [|x l Hx _ IH]; intros i; simpl; [done|].
  unfold unmarked in Hx. rewrite Hx. simpl. apply IH.
Qed.

Lemma skip_unmarked_inv lines i j :
  skip_unmarked lines i = Return j →
  ∃ pre line rest,
    lines = pre ++ line :: rest ∧ Forall unmarked pre ∧ marked line
    ∧ j = i + length pre.
Proof.
  revert i. induction lines as [|x l IH]; intros i H; simpl in H; [done|].
  destruct (str_in marker x) eqn:E; simpl in H.
  - injection H as <-. exists [], x, l. repeat split; auto; simpl; lia.
  - destruct (IH _ H) as (pre & line & rest & -> & Hpre & Hl & ->).
    exists (x :: pre), line, rest. repeat split; auto; simpl; lia.
Qed.

Lemma skip_marked_inv lines i j :
  skip_marked lines i = Return j →
  ∃ block next rest,
    lines = block ++ next :: rest ∧ Forall marked block ∧ unmarked next
    ∧ j = i + length block.
Proof.
  revert i. induction lines as [|x l IH]; intros i H; simpl in H; [done|].
  destruct (str_in marker x) eqn:E.
  - destruct (IH _ H) as (block & next & rest & -> & Hb & Hn & ->).
    exists (x :: block), next, rest. repeat split; auto; simpl; lia.
  - injection H as <-. exists [], x, l. repeat split; auto; simpl; lia.
Qed.

(** The two loops read [lines[index]]: one step of each, by index. *)
Lemma skip_unmarked_step lines index :
  skip_unmarked (drop index lines) index =
    match lines !! index with
    | None => Raise IndexError
    | Some line =>
        if negb (str_in marker line)
        then skip_unmarked (drop (S index) lines) (S index)
        else Return index
    end.
Proof.
  destruct (lines !! index) as [line|] eqn:E.
  - by rewrite (drop_S _ _ _ E).
  - apply lookup_ge_None in E. by rewrite drop_ge.
Qed.

Lemma skip_marked_step lines index :
  skip_marked (drop index lines) index =
    match lines !! index with
    | None => Raise IndexError
    | Some line =>
        if str_in marker line
        then skip_marked (drop (S index) lines) (S index)
        else Return index
    end.
Proof.
  destruct (lines !! index) as [line|] eqn:E.
  - by rewrite (drop_S _ _ _ E).
  - apply lookup_ge_None in E. by rewrite drop_ge.
Qed.

(** The scan stops right after the first run of marked lines. *)
Lemma find_insertion_index_block pre block next rest :
  Forall unmarked pre → Forall marked block → block ≠ [] → unmarked next →
  find_insertion_index (pre ++ block ++ next :: rest)
  = Return (length pre + length block).
Proof.
  intros Hpre Hblock Hne Hnext. unfold find_insertion_index.
  rewrite (skip_unmarked_app _ _ _ Hpre).
  destruct block as [|b block]; [done|].
  apply Forall_cons in Hblock as Hb. destruct Hb as [Hb _].
  unfold marked in Hb. simpl. rewrite Hb. simpl.
  unfold mbind, result_bind.
  rewrite drop_app_length.
  change (b :: block ++ next :: rest) with ((b :: block) ++ next :: rest).
  rewrite (skip_marked_app _ _ _ Hblock). simpl.
  unfold unmarked in Hnext. by rewrite Hnext.
Qed.

Lemma find_insertion_index_inv lines index :
  find_insertion_index lines = Return index →
  ∃ pre block next rest,
    lines = pre ++ block ++ next :: rest ∧ Forall unmarked pre
    ∧ Forall marked block ∧ block ≠ [] ∧ unmarked next
    ∧ index = length pre + length block.
Proof.
  unfold find_insertion_index, mbind, result_bind. intros H.
  destruct (skip_unmarked lines 0) as [i|e] eqn:E1; [|done].
  apply skip_unmarked_inv in E1 as (pre & line & rest & -> & Hpre & Hl & ->).
  simpl in H. rewrite drop_app_length in H.
  apply skip_marked_inv in H as (block & next & rest' & Hlr & Hb & Hn & ->).
  exists pre, block, next, rest'. rewrite Hlr. repeat split; auto.
  intros ->. simpl in Hlr. injection Hlr as -> _.
  unfold marked, unmarked in *. congruence.
Qed.

Lemma find_insertion_index_unmarked lines :
  Forall unmarked lines → find_insertion_index lines = Raise IndexError.
Proof.
  intros H. unfold find_insertion_index.
  by rewrite (skip_unmarked_all _ _ H).
Qed.

Lemma find_insertion_index_lt lines index :
  find_insertion_index lines = Return index → index < length lines.
Proof.
  intros H.
  apply find_insertion_index_inv in H
    as (pre & block & next & rest & -> & _ & _ & _ & _ & ->).
  rewrite !length_app. simpl. lia.
Qed.

End Scan.

(** ** The directive *)

Lemma directive_marked comp_path : marked (directive comp_path).
Proof. reflexivity. Qed.

Lemma directive_has_char c comp_path :
  has_char c (directive comp_path)
  = has_char c directive_head || has_char c comp_path
    || has_char c directive_tail.
Proof.
  unfold directive. rewrite !has_char_app. by rewrite orb_assoc.
Qed.

Lemma directive_no_CR comp_path :
  has_char CR comp_path = false → has_char CR (directive comp_path) = false.
Proof. intros H. rewrite directive_has_char, H. reflexivity. Qed.

Lemma directive_terminated comp_path :
  has_char LF comp_path = false → terminated (directive comp_path).
Proof.
  intros H.
  exists (directive_head +:+ comp_path +:+ "/" +:+ String DQUOTE ")").
  split.
  - unfold directive. rewrite !app_assoc_str. reflexivity.
  - rewrite !has_char_app, H. reflexivity.
Qed.

(** ** confirm *)

Lemma confirm_accepts msg w answer ins :
  stdin w = answer :: ins → accepts answer →
  confirm msg w = (Return true, mkWorld (files w) ins (stdout w ++ [msg])).
Proof.
  intros Hin Hyes. unfold confirm. rewrite Hin. cbn [confirm_loop].
  by rewrite (bool_decide_eq_true_2 _ Hyes).
Qed.

Lemma declines_not_accepts answer : declines answer → ¬ accepts answer.
Proof.
  unfold declines, accepts. rewrite !elem_of_cons, !elem_of_nil.
  intros [H|[H|[]]] [H'|[H'|[]]]; rewrite H in H'; discriminate.
Qed.

Lemma confirm_declines msg w answer ins :
  stdin w = answer :: ins → declines answer →
  confirm msg w = (Return false, mkWorld (files w) ins (stdout w ++ [msg])).
Proof.
  intros Hin Hno. unfold confirm. rewrite Hin. cbn [confirm_loop].
  rewrite (bool_decide_eq_false_2 _ (declines_not_accepts _ Hno)).
  by rewrite (bool_decide_eq_true_2 _ Hno).
Qed.

(** ** add_to_cmake *)

(** The function, seen from a world in which the build-list file exists. *)
Lemma add_to_cmake_unfold list_file comp_path w text :
  files w !! list_file = Some text →
  add_to_cmake list_file comp_path w =
    let w1 := mkWorld (files w) (stdin w)
                (stdout w ++ [found_message list_file +:+ String LF ""]) in
    match find_insertion_index (lines_of text) with
    | Raise e => (Raise e, w1)
    | Return index =>
        match confirm (confirm_prompt list_file comp_path) w1 with
        | (Return true, w2) =>
            if list_in (directive comp_path) (lines_of text) then
              (Return true,
               mkWorld (files w2) (stdin w2)
                 (stdout w2 ++ ["Component already added to CMakeLists.txt"
                                  +:+ String LF ""]))
            else
              (Return true,
               mkWorld (<[list_file :=
                            join (list_insert_at index (directive comp_path)
                                    (lines_of text))]> (files w2))
                 (stdin w2) (stdout w2))
        | (Return false, w2) => (Return false, w2)
        | (Raise e, w2) => (Raise e, w2)
        end
    end.
Proof.
  intros Hfile.
  unfold add_to_cmake, mbind, io_bind, print, write_out, readlines, lift.
  cbn [files stdin stdout]. rewrite Hfile.
  destruct (find_insertion_index (lines_of text)) as [index|e]; [|done].
  cbn zeta.
  destruct (confirm _ _) as [[[]|e] w2]; cbn [negb]; try done.
  destruct (list_in _ _); done.
Qed.

Lemma add_to_cmake_missing_file list_file comp_path w :
  files w !! list_file = None →
  add_to_cmake list_file comp_path w =
    (Raise FileNotFoundError,
     mkWorld (files w) (stdin w)
       (stdout w ++ [found_message list_file +:+ String LF ""])).
Proof.
  intros Hfile.
  unfold add_to_cmake, mbind, io_bind, print, write_out, readlines.
  cbn [files stdin stdout]. by rewrite Hfile.
Qed.

Lemma list_insert_at_app {A} (l1 l2 : list A) x :
  list_insert_at (length l1) x (l1 ++ l2) = l1 ++ x :: l2.
Proof.
  unfold list_insert_at. by rewrite take_app_length, drop_app_length.
Qed.

Lemma list_insert_at_block {A} (pre block rest : list A) x :
  list_insert_at (length pre + length block) x (pre ++ block ++ rest)
  = pre ++ block ++ x :: rest.
Proof.
  rewrite <- length_app, (assoc_L (++)), list_insert_at_app.
  by rewrite <- (assoc_L (++)).
Qed.

Lemma elem_of_list_insert_at {A} i (x : A) l : x ∈ list_insert_at i x l.
Proof. unfold list_insert_at. rewrite elem_of_app, elem_of_cons. auto. Qed.

Lemma has_insertion_point_index lines :
  has_insertion_point lines ↔
  ∃ index, find_insertion_index lines = Return index.
Proof.
  split.
  - intros (pre & block & next & rest & -> & Hpre & Hne & Hb & Hn).
    eexists. by apply find_insertion_index_block.
  - intros [index H].
    apply find_insertion_index_inv in H
      as (pre & block & next & rest & -> & ? & ? & ? & ? & _).
    by exists pre, block, next, rest.
Qed.

Lemma find_insertion_index_insert lines index x :
  find_insertion_index lines = Return index → marked x →
  find_insertion_index (list_insert_at index x lines) = Return (S index).
Proof.
  intros H Hx.
  apply find_insertion_index_inv in H
    as (pre & block & next & rest & -> & Hpre & Hb & Hne & Hn & ->).
  rewrite list_insert_at_block.
  change (block ++ x :: next :: rest) with (block ++ [x] ++ next :: rest).
  rewrite (assoc_L (++) block).
  rewrite find_insertion_index_block; auto.
  - rewrite length_app. simpl. f_equal. lia.
  - apply Forall_app. split; [done|]. by constructor.
  - by destruct block.
Qed.

(** Reading back what was written after an insertion gives the lines that
    were joined, when the inserted path has no line break. *)
Lemma lines_of_join_insert text index comp_path :
  index < length (lines_of text) →
  has_char LF comp_path = false → has_char CR comp_path = false →
  lines_of (join (list_insert_at index (directive comp_path) (lines_of text)))
  = list_insert_at index (directive comp_path) (lines_of text).
Proof.
  intros Hi HLF HCR. unfold lines_of at 1.
  rewrite universal_newlines_id.
  - apply splitlines_join. apply lines_shape_insert_at; [|done|].
    + apply splitlines_shape.
    + by apply directive_terminated.
  - rewrite has_char_join_insert_at, (directive_no_CR _ HCR).
    unfold lines_of. rewrite join_splitlines.
    apply universal_newlines_no_CR.
Qed.

(** Closed side conditions are settled by evaluation. *)
Ltac by_evaluation :=
  first [ reflexivity
        | discriminate
        | unfold marked, unmarked, accepts, declines;
          apply (bool_decide_unpack _); vm_compute; exact I ].

(** C1. Ordering. When the lines of the build list are some unmarked lines,
    then a run [block] of marked lines that is not empty, then lines that
    start with an unmarked one and hold the topology line [topo], and the
    directive is not yet a line of the file, an accepted call writes the file
    with the directive right after [block]: after every directive of the
    run, before the topology line, which keeps its place after them. *)
Theorem add_to_cmake_inserts_after_marker_block
    list_file comp_path w text pre block mid topo post answer ins :
  files w !! list_file = Some text →
  lines_of text = pre ++ block ++ mid ++ topo :: post →
  Forall unmarked pre → block ≠ [] → Forall marked block →
  unmarked (hd topo mid) → unmarked topo →
  directive comp_path ∉ lines_of text →
  stdin w = answer :: ins → accepts answer →
  add_to_cmake list_file comp_path w =
    (Return true,
     mkWorld
       (<[list_file :=
            join (pre ++ block ++ directive comp_path :: mid ++ topo :: post)]>
          (files w))
       ins
       (stdout w ++ [found_line list_file;
                     confirm_prompt list_file comp_path])).
Proof.
  intros Hfile Hlines Hpre Hne Hblock Hnext _ Hnew Hin Hyes.
  rewrite (add_to_cmake_unfold _ _ _ _ Hfile). cbn zeta.
  assert (∃ next rest, mid ++ topo :: post = next :: rest ∧ unmarked next)
    as (next & rest & Hrest & Hn).
  { destruct mid as [|m mid]; simpl in *; eauto. }
  rewrite Hlines, Hrest.
  rewrite find_insertion_index_block by done.
  erewrite confirm_accepts by (cbn [stdin]; eauto).
  unfold list_in. rewrite bool_decide_eq_false_2 by (by rewrite <- Hrest, <- Hlines).
  cbn [files stdin stdout]. rewrite list_insert_at_block.
  unfold found_line. by rewrite <- (assoc_L (++)).
Qed.

Lemma add_to_cmake_inserts_after_marker_block_witness :
  add_to_cmake "CMakeLists.txt" "Comp"
    (mkWorld {[ "CMakeLists.txt" := sample_lists ]} ["yes"] [])
  = (Return true,
     mkWorld
       (<["CMakeLists.txt" :=
            join (["project(Ref)
"] ++ ["add_fprime_subdirectory(A)
"; "add_fprime_subdirectory(B)
"] ++ directive "Comp" :: [] ++ "include(Top)
" :: [])]> {[ "CMakeLists.txt" := sample_lists ]})
       []
       ([] ++ [found_line "CMakeLists.txt";
               confirm_prompt "CMakeLists.txt" "Comp"])).
Proof.
  refine (add_to_cmake_inserts_after_marker_block
           "CMakeLists.txt" "Comp"
           (mkWorld {[ "CMakeLists.txt" := sample_lists ]} ["yes"] [])
           sample_lists
           ["project(Ref)
"] ["add_fprime_subdirectory(A)
"; "add_fprime_subdirectory(B)
"] [] "include(Top)
" [] "yes" [] _ _ _ _ _ _ _ _ _ _); by_evaluation.

Defined.

(** C6. A build list none of whose lines carries the marker makes the call
    raise [IndexError]; nothing is written and no answer is read. *)
Theorem add_to_cmake_without_marker_raises list_file comp_path w text :
  files w !! list_file = Some text →
  Forall unmarked (lines_of text) →
  add_to_cmake list_file comp_path w =
    (Raise IndexError,
     mkWorld (files w) (stdin w) (stdout w ++ [found_line list_file])).
Proof.
  intros Hfile Hlines.
  rewrite (add_to_cmake_unfold _ _ _ _ Hfile). cbn zeta.
  by rewrite (find_insertion_index_unmarked _ Hlines).
Qed.

Lemma add_to_cmake_without_marker_raises_witness :
  add_to_cmake "CMakeLists.txt" "Comp"
    (mkWorld {[ "CMakeLists.txt" := sample_plain ]} ["yes"] [])
  = (Raise IndexError,
     mkWorld {[ "CMakeLists.txt" := sample_plain ]} ["yes"]
       ([] ++ [found_line "CMakeLists.txt"])).
Proof.
  refine (add_to_cmake_without_marker_raises
            "CMakeLists.txt" "Comp"
            (mkWorld {[ "CMakeLists.txt" := sample_plain ]} ["yes"] [])
            sample_plain _ _); by_evaluation.
Defined.

(** The claim of C9 fails where the run of marked lines reaches the end of
    the file: the directive is a line of the file and the answer is a no, yet
    the scan reads past the last line, so that the call raises [IndexError]
    instead of returning [False]; the prompt is not written and the answer
    is not read. *)
Lemma add_to_cmake_duplicate_at_end_not_prompted :
  let w := mkWorld {[ "CMakeLists.txt" := sample_libraries ]} ["No"] [] in
  files w !! "CMakeLists.txt" = Some sample_libraries
  ∧ directive "Comp" ∈ lines_of sample_libraries
  ∧ declines "No"
  ∧ add_to_cmake "CMakeLists.txt" "Comp" w
    = (Raise IndexError,
       mkWorld (files w) ["No"] [found_line "CMakeLists.txt"])
  ∧ fst (add_to_cmake "CMakeLists.txt" "Comp" w) ≠ Return false
  ∧ confirm_prompt "CMakeLists.txt" "Comp"
    ∉ stdout (snd (add_to_cmake "CMakeLists.txt" "Comp" w)).
Proof. cbn zeta. repeat split; by_evaluation. Qed.

(** C9, amended. The duplicate check comes after the confirmation: on a
    build list on which the scan ends, that is whose first run of marked
    lines is followed by an unmarked line, and which already holds the
    directive as a line, the prompt is still written, and a declined
    confirmation makes the call return [False] with the file untouched. *)
Theorem add_to_cmake_decline_overrides_duplicate
    list_file comp_path w text answer ins :
  files w !! list_file = Some text →
  has_insertion_point (lines_of text) →
  directive comp_path ∈ lines_of text →
  stdin w = answer :: ins → declines answer →
  add_to_cmake list_file comp_path w =
    (Return false,
     mkWorld (files w) ins
       (stdout w ++ [found_line list_file;
                     confirm_prompt list_file comp_path])).
Proof.
  intros Hfile Hpoint _ Hin Hno.
  rewrite (add_to_cmake_unfold _ _ _ _ Hfile). cbn zeta.
  apply has_insertion_point_index in Hpoint as [index ->].
  erewrite confirm_declines by (cbn [stdin]; eauto).
  cbn [files stdout]. unfold found_line. by rewrite <- (assoc_L (++)).
Qed.

Lemma sample_registered_has_insertion_point :
  has_insertion_point (lines_of sample_registered).
Proof.
  exists ["project(Ref)
"], [directive "Comp"], "include(Top)
", [].
  repeat split; by_evaluation.
Qed.

Lemma add_to_cmake_decline_overrides_duplicate_witness :
  add_to_cmake "CMakeLists.txt" "Comp"
    (mkWorld {[ "CMakeLists.txt" := sample_registered ]} ["No"] [])
  = (Return false,
     mkWorld {[ "CMakeLists.txt" := sample_registered ]} []
       ([] ++ [found_line "CMakeLists.txt";
               confirm_prompt "CMakeLists.txt" "Comp"])).
Proof.
  refine (add_to_cmake_decline_overrides_duplicate
            "CMakeLists.txt" "Comp"
            (mkWorld {[ "CMakeLists.txt" := sample_registered ]} ["No"] [])
            sample_registered "No" [] _ _ _ _ _);
    first [ exact sample_registered_has_insertion_point | by_evaluation ].
Defined.

(** The claim of C2 fails where the run of marked lines reaches the end of
    the file: the directive is a line of the file and the answer is yes, yet
    the scan reads past the last line and the call raises [IndexError]
    instead of returning [True]. *)
Lemma add_to_cmake_duplicate_at_end_raises :
  let w := mkWorld {[ "CMakeLists.txt" := sample_libraries ]} ["yes"] [] in
  files w !! "CMakeLists.txt" = Some sample_libraries
  ∧ Exists marked (lines_of sample_libraries)
  ∧ directive "Comp" ∈ lines_of sample_libraries
  ∧ accepts "yes"
  ∧ fst (add_to_cmake "CMakeLists.txt" "Comp" w) = Raise IndexError
  ∧ fst (add_to_cmake "CMakeLists.txt" "Comp" w) ≠ Return true.
Proof.
  cbn zeta. repeat split; by_evaluation.
Qed.

(** C2, amended. For a component path without line break, whatever the
    build list holds, a second accepted call leaves the files as the first
    accepted call left them. When the directive is already a line of a build
    list on which the scan ends, an accepted call returns [True], says so on
    the terminal and writes nothing. *)
Theorem add_to_cmake_idempotent list_file comp_path w a1 a2 ins :
  has_char LF comp_path = false → has_char CR comp_path = false →
  stdin w = a1 :: a2 :: ins → accepts a1 → accepts a2 →
  let once := snd (add_to_cmake list_file comp_path w) in
  let twice := snd (add_to_cmake list_file comp_path once) in
  files twice = files once
  ∧ ∀ text,
      files w !! list_file = Some text →
      has_insertion_point (lines_of text) →
      directive comp_path ∈ lines_of text →
      add_to_cmake list_file comp_path w =
        (Return true,
         mkWorld (files w) (a2 :: ins)
           (stdout w ++ [found_line list_file;
                         confirm_prompt list_file comp_path;
                         already_added_line])).
Proof.
  intros HLF HCR Hin Hyes1 Hyes2. cbn zeta. split.
  - destruct (files w !! list_file) as [text|] eqn:Hfile.
    2:{ rewrite (add_to_cmake_missing_file _ _ _ Hfile). cbn [snd].
        by rewrite add_to_cmake_missing_file. }
    rewrite (add_to_cmake_unfold _ _ _ _ Hfile). cbn zeta.
    destruct (find_insertion_index (lines_of text)) as [index|e] eqn:Hscan.
    2:{ cbn [snd]. erewrite add_to_cmake_unfold by exact Hfile.
        cbn zeta. by rewrite Hscan. }
    erewrite confirm_accepts by (cbn [stdin]; eauto).
    cbn [files stdin stdout].
    destruct (list_in (directive comp_path) (lines_of text)) eqn:Hdup.
    + cbn [snd]. erewrite add_to_cmake_unfold by exact Hfile.
      cbn zeta. rewrite Hscan.
      erewrite confirm_accepts by (cbn [stdin]; eauto).
      by rewrite Hdup.
    + cbn [snd].
      erewrite add_to_cmake_unfold
        by (cbn [files]; apply lookup_insert_eq).
      cbn zeta.
      rewrite lines_of_join_insert
        by eauto using find_insertion_index_lt.
      rewrite (find_insertion_index_insert _ _ _ Hscan
                 (directive_marked comp_path)).
      erewrite confirm_accepts by (cbn [stdin]; eauto).
      unfold list_in at 1.
      rewrite bool_decide_eq_true_2 by apply elem_of_list_insert_at.
      reflexivity.
  - intros text Hfile Hpoint Hdup.
    rewrite (add_to_cmake_unfold _ _ _ _ Hfile). cbn zeta.
    apply has_insertion_point_index in Hpoint as [index ->].
    erewrite confirm_accepts by (cbn [stdin]; eauto).
    unfold list_in. rewrite bool_decide_eq_true_2 by done.
    cbn [files stdin stdout]. unfold found_line, already_added_line.
    by rewrite <- !(assoc_L (++)).
Qed.

Lemma add_to_cmake_idempotent_witness :
  let w := mkWorld {[ "CMakeLists.txt" := sample_registered ]}
             ["yes"; "y"] [] in
  let once := snd (add_to_cmake "CMakeLists.txt" "Comp" w) in
  let twice := snd (add_to_cmake "CMakeLists.txt" "Comp" once) in
  files twice = files once
  ∧ add_to_cmake "CMakeLists.txt" "Comp" w =
      (Return true,
       mkWorld (files w) ["y"]
         (stdout w ++ [found_line "CMakeLists.txt";
                       confirm_prompt "CMakeLists.txt" "Comp";
                       already_added_line])).
Proof.
  intros w.
  assert (has_char LF "Comp" = false) as HLF by reflexivity.
  assert (has_char CR "Comp" = false) as HCR by reflexivity.
  assert (stdin w = "yes" :: "y" :: []) as Hin by reflexivity.
  assert (accepts "yes") as H1 by by_evaluation.
  assert (accepts "y") as H2 by by_evaluation.
  split.
  - exact (proj1 (add_to_cmake_idempotent
                    "CMakeLists.txt" "Comp" w "yes" "y" [] HLF HCR Hin H1 H2)).
  - refine (proj2 (add_to_cmake_idempotent
                     "CMakeLists.txt" "Comp" w "yes" "y" [] HLF HCR Hin H1 H2)
              sample_registered _ _ _);
      first [ exact sample_registered_has_insertion_point | by_evaluation ].
Defined.

(** Why the path must have no line break: the directive of [broken_path]
    is read back as two lines, none of which is the directive, and the second
    call inserts it again. *)
Example add_to_cmake_line_break_inserts_twice :
  let w := mkWorld {[ "CMakeLists.txt" := sample_lists ]} ["yes"; "yes"] [] in
  let once := snd (add_to_cmake "CMakeLists.txt" broken_path w) in
  let twice := snd (add_to_cmake "CMakeLists.txt" broken_path once) in
  files twice ≠ files once.
Proof.
  cbn zeta. intros H.
  apply (f_equal (λ m : gmap string string, m !! "CMakeLists.txt")) in H.
  vm_compute in H. discriminate.
Qed.

(** ** is_valid_name *)

Lemma first_char_in_none chars word :
  (∀ c, c ∈ chars → str_in c word = false) →
  first_char_in chars word = "valid".
Proof.
  induction chars as [|c chars IH]; intros H; [done|]. simpl.
  rewrite (H c) by apply list_elem_of_here.
  apply IH. intros d Hd. apply H. by apply list_elem_of_further.
Qed.

Lemma first_char_in_first pre c post word :
  (∀ d, d ∈ pre → str_in d word = false) → str_in c word = true →
  first_char_in (pre ++ c :: post) word = c.
Proof.
  induction pre as [|d pre IH]; intros Hpre Hc; simpl.
  - by rewrite Hc.
  - rewrite (Hpre d) by apply list_elem_of_here.
    apply IH; [|done]. intros e He. apply Hpre. by apply list_elem_of_further.
Qed.

(** The claim of C5 fails on a word with a space and a dollar sign: the code
    answers the space, which it scans twelfth, where the order of the claim,
    with the space last, gives the dollar sign. *)
Lemma is_valid_name_space_before_dollar :
  is_valid_name "a $b" = " "
  ∧ first_char_in specified_order "a $b" = "$"
  ∧ is_valid_name "a $b" ≠ first_char_in specified_order "a $b".
Proof. repeat split; by_evaluation. Qed.

(** C5, amended. [is_valid_name] answers "valid" for a word that holds none
    of the disallowed characters, and otherwise the first disallowed
    character of the word in the order of the code, in which the space comes
    twelfth, between the question mark and the dollar sign. The three sample
    calls give "valid", the space and the slash. *)
Theorem is_valid_name_first_in_code_order word :
  invalid_characters =
    [ "#"; "%"; "&"; "{"; "}"; "/"; String BACKSLASH ""; "<"; ">"; "*"; "?";
      " "; "$"; "!"; "'"; String DQUOTE ""; ":"; "@"; "+"; "`"; "|"; "=" ]
  ∧ ((∀ c, c ∈ invalid_characters → str_in c word = false) →
     is_valid_name word = "valid")
  ∧ (∀ pre c post,
       invalid_characters = pre ++ c :: post →
       (∀ d, d ∈ pre → str_in d word = false) → str_in c word = true →
       is_valid_name word = c)
  ∧ is_valid_name "good_name" = "valid"
  ∧ is_valid_name "bad name" = " "
  ∧ is_valid_name "a/b" = "/".
Proof.
  split; [reflexivity|]. split; [|split; [|by repeat split]].
  - apply first_char_in_none.
  - intros pre c post Hsplit Hpre Hc. unfold is_valid_name.
    rewrite Hsplit. by apply first_char_in_first.
Qed.

Lemma is_valid_name_first_in_code_order_witness :
  is_valid_name "a $b" = " " ∧ is_valid_name "ok_name" = "valid".
Proof.
  split.
  - refine (proj1 (proj2 (proj2 (is_valid_name_first_in_code_order "a $b")))
              [ "#"; "%"; "&"; "{"; "}"; "/"; String BACKSLASH ""; "<"; ">";
                "*"; "?" ] " "
              [ "$"; "!"; "'"; String DQUOTE ""; ":"; "@"; "+"; "`"; "|"; "=" ]
              _ _ _); [reflexivity| |reflexivity].
    intros d Hd.
    repeat (apply elem_of_cons in Hd as [->|Hd]; [reflexivity|]).
    by apply elem_of_nil in Hd.
  - refine (proj1 (proj2 (is_valid_name_first_in_code_order "ok_name")) _).
    intros c Hc. unfold invalid_characters in Hc.
    repeat (apply elem_of_cons in Hc as [->|Hc]; [reflexivity|]).
    by apply elem_of_nil in Hc.
Defined.

(** ** The choice of the .cpp destination *)

Lemma insert_by_len_perm x l : insert_by_len x l ≡ₚ x :: l.
Proof.
  induction l as [|y l IH]; [done|]. simpl.
  destruct (len x <=? len y); [done|].
  rewrite IH. apply Permutation_swap.
Qed.

Lemma sort_by_len_perm l : sort_by_len l ≡ₚ l.
Proof.
  induction l as [|x l IH]; [done|]. simpl.
  rewrite insert_by_len_perm. by rewrite IH.
Qed.

Lemma insert_by_len_sorted x l :
  StronglySorted len_le l → StronglySorted len_le (insert_by_len x l).
Proof.
  induction 1 as [|y l Hl IH Hy]; simpl.
  - repeat constructor.
  - destruct (len x <=? len y) eqn:E.
    + apply Nat.leb_le in E. constructor; [by constructor|].
      constructor; [done|].
      eapply Forall_impl; [exact Hy|]. unfold len_le. intros; lia.
    + apply Nat.leb_gt in E. constructor; [done|].
      rewrite insert_by_len_perm. constructor; [|done].
      unfold len_le. lia.
Qed.

Lemma sort_by_len_sorted l : StronglySorted len_le (sort_by_len l).
Proof.
  induction l as [|x l IH]; simpl; [constructor|].
  by apply insert_by_len_sorted.
Qed.

(** The first element a filter keeps of a sorted list is the least of those
    it keeps. *)
Lemma filter_sorted_head (P : string → Prop) `{∀ x, Decision (P x)} l c rest :
  StronglySorted len_le l → filter P l = c :: rest →
  c ∈ l ∧ P c ∧ ∀ d, d ∈ l → P d → len c ≤ len d.
Proof.
  induction 1 as [|y l Hl IH Hy]; intros Hf; [done|].
  rewrite filter_cons in Hf. destruct (decide (P y)) as [Hp|Hp].
  - injection Hf as <- _. split; [apply list_elem_of_here|]. split; [done|].
    intros d Hd _. apply elem_of_cons in Hd as [->|Hd]; [done|].
    rewrite Forall_forall in Hy. by apply Hy.
  - destruct (IH Hf) as (Hc & HPc & Hmin).
    split; [by apply list_elem_of_further|]. split; [done|].
    intros d Hd HPd. apply elem_of_cons in Hd as [->|Hd]; [done|].
    by apply Hmin.
Qed.

(** C10. When some candidate holds [Common], the destination chosen from the
    candidates sorted by length is the head of the sorted list filtered on
    [Common]: a candidate that holds [Common] and is no longer than any other
    candidate that does. *)
Theorem choose_cpp_dest_shortest_common cpp_files :
  (∃ c, c ∈ cpp_files ∧ str_in "Common" c = true) →
  ∃ dest,
    choose_cpp_dest (sort_by_len cpp_files) = Some dest
    ∧ head (filter (λ name, str_in "Common" name = true)
              (sort_by_len cpp_files)) = Some dest
    ∧ dest ∈ cpp_files
    ∧ str_in "Common" dest = true
    ∧ ∀ c, c ∈ cpp_files → str_in "Common" c = true → len dest ≤ len c.
Proof.
  intros (c & Hc & HPc). unfold choose_cpp_dest.
  destruct (filter _ (sort_by_len cpp_files)) as [|dest rest] eqn:Hf.
  - exfalso. rewrite <- (sort_by_len_perm cpp_files) in Hc.
    assert (c ∈ filter (λ name, str_in "Common" name = true)
                  (sort_by_len cpp_files)) as Hin
      by (by apply list_elem_of_filter).
    rewrite Hf in Hin. by apply elem_of_nil in Hin.
  - exists dest. split; [done|]. split; [done|].
    destruct (filter_sorted_head _ _ _ _ (sort_by_len_sorted cpp_files) Hf)
      as (Hd & HPd & Hmin).
    rewrite (sort_by_len_perm cpp_files) in Hd. split; [done|].
    split; [done|]. intros d Hdin HPd'. apply Hmin; [|done].
    by rewrite (sort_by_len_perm cpp_files).
Qed.

Lemma choose_cpp_dest_shortest_common_witness :
  ∃ dest,
    choose_cpp_dest
      (sort_by_len ["u/CompCommonImpl.cpp"; "u/Comp.cpp"; "u/CompCommon.cpp"])
    = Some dest
    ∧ dest = "u/CompCommon.cpp".
Proof.
  destruct (choose_cpp_dest_shortest_common
              ["u/CompCommonImpl.cpp"; "u/Comp.cpp"; "u/CompCommon.cpp"])
    as (dest & Hdest & _).
  - exists "u/CompCommon.cpp". split; by_evaluation.
  - exists dest. split; [exact Hdest|].
    vm_compute in Hdest. by injection Hdest as <-.
Defined.

(** ** The merge of the stubs *)

(** Two prefixes of one string: one is a prefix of the other. *)
Lemma starts_with_both p q s :
  starts_with p s = true → starts_with q s = true →
  starts_with p q || starts_with q p = true.
Proof.
  revert p q. induction s as [|c s IH]; intros [|a p] [|b q]; simpl;
    try done.
  intros [Ha Hp]%andb_true_iff [Hb Hq]%andb_true_iff.
  apply bool_decide_eq_true in Ha, Hb. subst a b.
  rewrite !bool_decide_eq_true_2 by done. simpl. by apply IH.
Qed.

(** Names that end differently are different names. *)
Lemma ends_with_differ suffix1 suffix2 s1 s2 :
  ends_with suffix1 s1 = true → ends_with suffix2 s2 = true →
  starts_with (String.rev suffix1) (String.rev suffix2)
  || starts_with (String.rev suffix2) (String.rev suffix1) = false →
  s1 ≠ s2.
Proof.
  unfold ends_with. intros H1 H2 Hdiff ->.
  by rewrite (starts_with_both _ _ _ H1 H2) in Hdiff.
Qed.

Lemma copy_without_header_run src dest w text :
  files w !! src = Some text →
  copy_without_header src dest w =
    (Return (),
     mkWorld (<[dest := default "" (files w !! dest)
                         +:+ join (drop 11 (lines_of text))]> (files w))
       (stdin w) (stdout w)).
Proof.
  intros H. unfold copy_without_header, mbind, io_bind, readlines.
  by rewrite H.
Qed.

Lemma os_remove_run path w text :
  files w !! path = Some text →
  os_remove path w =
    (Return (), mkWorld (delete path (files w)) (stdin w) (stdout w)).
Proof. intros H. unfold os_remove. by rewrite H. Qed.

(** C4. For stubs and destinations named as [glob] names them, the merge
    returns [True] and leaves each destination with the text it had followed
    by the lines of its stub from the twelfth on, and no stub: a destination
    that was empty holds exactly those lines. Nothing else changes. *)
Theorem merge_stubs_appends_without_header
    w hpp_src cpp_src hpp_dest cpp_dest stub_h stub_c :
  ends_with ".hpp-template" hpp_src = true →
  ends_with ".cpp-template" cpp_src = true →
  ends_with ".hpp" hpp_dest = true →
  ends_with ".cpp" cpp_dest = true →
  files w !! hpp_src = Some stub_h →
  files w !! cpp_src = Some stub_c →
  let tail_h := join (drop 11 (lines_of stub_h)) in
  let tail_c := join (drop 11 (lines_of stub_c)) in
  let old_h := default "" (files w !! hpp_dest) in
  let old_c := default "" (files w !! cpp_dest) in
  ∃ w',
    merge_stubs hpp_src cpp_src hpp_dest cpp_dest w = (Return true, w')
    ∧ w' = mkWorld
             (delete cpp_src (delete hpp_src
                (<[cpp_dest := old_c +:+ tail_c]>
                   (<[hpp_dest := old_h +:+ tail_h]> (files w)))))
             (stdin w) (stdout w)
    ∧ files w' !! hpp_dest = Some (old_h +:+ tail_h)
    ∧ files w' !! cpp_dest = Some (old_c +:+ tail_c)
    ∧ (files w !! hpp_dest = Some "" → files w' !! hpp_dest = Some tail_h)
    ∧ (files w !! cpp_dest = Some "" → files w' !! cpp_dest = Some tail_c)
    ∧ files w' !! hpp_src = None
    ∧ files w' !! cpp_src = None.
Proof.
  intros Ehs Ecs Ehd Ecd Hh Hc. cbn zeta.
  assert (hpp_src ≠ cpp_src) as N1
    by (eapply ends_with_differ; [exact Ehs|exact Ecs|reflexivity]).
  assert (hpp_src ≠ hpp_dest) as N2
    by (eapply ends_with_differ; [exact Ehs|exact Ehd|reflexivity]).
  assert (hpp_src ≠ cpp_dest) as N3
    by (eapply ends_with_differ; [exact Ehs|exact Ecd|reflexivity]).
  assert (cpp_src ≠ hpp_dest) as N4
    by (eapply ends_with_differ; [exact Ecs|exact Ehd|reflexivity]).
  assert (cpp_src ≠ cpp_dest) as N5
    by (eapply ends_with_differ; [exact Ecs|exact Ecd|reflexivity]).
  assert (hpp_dest ≠ cpp_dest) as N6
    by (eapply ends_with_differ; [exact Ehd|exact Ecd|reflexivity]).
  eexists. split.
  - unfold merge_stubs, for_each, mbind, io_bind, mret, io_ret.
    rewrite (copy_without_header_run _ _ _ _ Hh).
    erewrite copy_without_header_run
      by (cbn [files]; rewrite lookup_insert_ne by done; exact Hc).
    cbn [files stdin stdout].
    rewrite (lookup_insert_ne _ hpp_dest cpp_dest) by done.
    erewrite os_remove_run
      by (cbn [files]; rewrite !lookup_insert_ne by done; exact Hh).
    erewrite os_remove_run
      by (cbn [files]; rewrite lookup_delete_ne by done;
          rewrite !lookup_insert_ne by done; exact Hc).
    reflexivity.
  - split; [reflexivity|]. cbn [files].
    assert (∀ m : gmap string string,
              delete cpp_src (delete hpp_src m) !! hpp_dest = m !! hpp_dest)
      as Dh by (intros; by rewrite !lookup_delete_ne).
    assert (∀ m : gmap string string,
              delete cpp_src (delete hpp_src m) !! cpp_dest = m !! cpp_dest)
      as Dc by (intros; by rewrite !lookup_delete_ne).
    rewrite Dh, Dc, lookup_insert_eq.
    rewrite lookup_insert_ne, lookup_insert_eq by done.
    repeat split.
    + by intros ->.
    + by intros ->.
    + rewrite lookup_delete_ne by done. apply lookup_delete_eq.
    + apply lookup_delete_eq.
Qed.

Lemma merge_stubs_appends_without_header_witness :
  ∃ w',
    merge_stubs "u/C.hpp-template" "u/C.cpp-template" "u/C.hpp" "u/C.cpp"
      (mkWorld sample_unit [] []) = (Return true, w')
    ∧ files w' !! "u/C.hpp" = Some "void handler();
void other();
"
    ∧ files w' !! "u/C.hpp-template" = None.
Proof.
  destruct (merge_stubs_appends_without_header
              (mkWorld sample_unit [] [])
              "u/C.hpp-template" "u/C.cpp-template" "u/C.hpp" "u/C.cpp"
              sample_stub sample_stub
              eq_refl eq_refl eq_refl eq_refl eq_refl eq_refl)
    as (w' & Hrun & _ & _ & _ & Hh & _ & Hgone & _).
  exists w'. split; [exact Hrun|]. split; [exact (Hh eq_refl)|exact Hgone].
Defined.

(** ** find_nearest_cmake_lists *)

Lemma parent_child p name : parent (child p name) = p.
Proof.
  destruct p as [a ns]. unfold parent, child. simpl.
  by rewrite removelast_last.
Qed.

Lemma length_removelast {A} (l : list A) : length (removelast l) ≤ length l.
Proof.
  induction l as [|x l IH]; simpl; [lia|]. destruct l; simpl in *; lia.
Qed.

Lemma child_not_parent p name : child p name ≠ parent p.
Proof.
  intros H. apply (f_equal (λ q, length (names q))) in H. simpl in H.
  rewrite length_app in H. simpl in H.
  pose proof (length_removelast (names p)). lia.
Qed.

(** C3, on the code. With a build list at the project root [root] only,
    the deployment [root / b] and the component in [root / b / c], the first
    pass, which starts at the parent of the component, already returns the
    build list of the root: its loop runs until [proj_root.parent], the same
    bound as the second pass, and does not leave the root out. *)
Theorem search_up_first_pass_reaches_root fuel is_file root b c :
  parent root ≠ root →
  is_file (child root "CMakeLists.txt") = true →
  is_file (child (child root b) "CMakeLists.txt") = false →
  search_up (S (S fuel)) is_file (Some root)
    (parent (child (child root b) c))
  = Some (Some (child root "CMakeLists.txt"))
  ∧ find_nearest_cmake_lists (S (S fuel)) is_file
      (child (child root b) c) (child root b) (Some root)
    = Some (Return (Some (child root "CMakeLists.txt"))).
Proof.
  intros Hroot HA HB.
  assert (search_up (S (S fuel)) is_file (Some root)
            (parent (child (child root b) c))
          = Some (Some (child root "CMakeLists.txt"))) as Hpass.
  { rewrite parent_child. cbn [search_up].
    rewrite (bool_decide_eq_true_2 _ (child_not_parent root b)).
    rewrite HB, parent_child.
    rewrite bool_decide_eq_true_2 by (by intros E; apply Hroot).
    by rewrite HA. }
  split; [exact Hpass|].
  unfold find_nearest_cmake_lists. cbn [search_passes]. by rewrite Hpass.
Qed.

Lemma search_up_first_pass_reaches_root_witness :
  search_up 2 only_at_A (Some dir_A) (parent dir_C)
  = Some (Some (child dir_A "CMakeLists.txt"))
  ∧ find_nearest_cmake_lists 2 only_at_A dir_C dir_B (Some dir_A)
    = Some (Return (Some (child dir_A "CMakeLists.txt"))).
Proof.
  refine (search_up_first_pass_reaches_root 0 only_at_A dir_A "B" "C" _ _ _);
    by_evaluation.
Defined.

(** What the docstring describes, on the same directories: the first pass
    finds nothing and leaves the root to the second. *)
Example documented_first_pass_skips_root :
  documented_search_up 3 only_at_A dir_A (parent dir_C) = Some None
  ∧ documented_search_up 3 only_at_A (parent dir_A) dir_B
    = Some (Some (child dir_A "CMakeLists.txt"))
  ∧ search_up 3 only_at_A (Some dir_A) (parent dir_C)
    ≠ documented_search_up 3 only_at_A dir_A (parent dir_C).
Proof. repeat split; by_evaluation. Qed.

(** The difference shows in the result when the component lies outside the
    deployment: the docstring prefers a parent of the deployment to the
    project root, the code returns the build list of the root. *)
Example find_nearest_prefers_root_to_deployment :
  find_nearest_cmake_lists 4 at_A_and_B dir_XC dir_B (Some dir_A)
  = Some (Return (Some (child dir_A "CMakeLists.txt")))
  ∧ documented_search_up 4 at_A_and_B dir_A (parent dir_XC) = Some None
  ∧ documented_search_up 4 at_A_and_B (parent dir_A) dir_B
    = Some (Some (child dir_B "CMakeLists.txt")).
Proof. repeat split; by_evaluation. Qed.

(** C7, on the code. With [None] for the project root the call raises
    [AttributeError], whatever the directories and the file system are:
    the list of passes reads [proj_root.parent] before the loop and its
    guard are reached. *)
Theorem find_nearest_cmake_lists_no_root_raises
    fuel is_file component_dir deployment :
  find_nearest_cmake_lists fuel is_file component_dir deployment None
  = Some (Raise AttributeError).
Proof. reflexivity. Qed.

(** Below the project root and without any build list, the loop ends
    without a match once the fuel covers the climb. *)
Lemma search_up_nothing_below_root is_file root l fuel :
  (∀ p, is_file p = false) → length l + 2 ≤ fuel →
  search_up fuel is_file (Some root) (descend root l) = Some None.
Proof.
  intros Hno. revert fuel.
  induction l as [|x l IH] using rev_ind; intros fuel Hfuel.
  - destruct fuel as [|[|fuel]]; simpl in Hfuel; try lia.
    assert (descend root [] = root) as ->.
    { destruct root. unfold descend. simpl. by rewrite app_nil_r. }
    cbn [search_up]. case_bool_decide; [|done].
    rewrite Hno. by rewrite bool_decide_eq_false_2 by (by intros H').
  - destruct fuel as [|fuel]; [rewrite length_app in Hfuel; simpl in *; lia|].
    assert (descend root (l ++ [x]) = child (descend root l) x) as ->.
    { unfold descend, child. simpl. by rewrite (assoc_L (++)). }
    cbn [search_up]. case_bool_decide; [|done].
    rewrite Hno, parent_child. apply IH.
    rewrite length_app in Hfuel. simpl in Hfuel. lia.
Qed.

Lemma find_nearest_cmake_lists_nothing is_file root lc ld fuel :
  (∀ p, is_file p = false) → length lc + 2 ≤ fuel → length ld + 2 ≤ fuel →
  find_nearest_cmake_lists fuel is_file
    (child (descend root lc) "Comp") (descend root ld) (Some root)
  = Some (Return None).
Proof.
  intros Hno Hc Hd. unfold find_nearest_cmake_lists. rewrite parent_child.
  cbn [search_passes].
  rewrite (search_up_nothing_below_root _ _ _ _ Hno Hc).
  by rewrite (search_up_nothing_below_root _ _ _ _ Hno Hd).
Qed.

(** From a directory that is not below the parent of the project root the
    climb reaches the file system root and stays there: no amount of fuel
    ends the loop. Here the root is [/proj/B] and the start [/X]. *)
Lemma search_up_outside_root_never_ends fuel test_path :
  test_path = mkPath true ["X"] ∨ test_path = mkPath true [] →
  search_up fuel (λ _, false) (Some dir_B) test_path = None.
Proof.
  revert test_path. induction fuel as [|fuel IH]; intros tp Htp; [done|].
  cbn [search_up].
  rewrite bool_decide_eq_true_2 by (by destruct Htp as [-> | ->]).
  apply IH. destruct Htp as [-> | ->]; by right.
Qed.

(** ** get_port_input *)

Lemma ask_name_valid prompt what w answer ins :
  stdin w = answer :: ins → is_valid_name answer = "valid" →
  ask_name prompt what w =
    (Return answer, mkWorld (files w) ins (stdout w ++ [prompt])).
Proof.
  intros Hin Hvalid. unfold ask_name. rewrite Hin. cbn [ask_name_loop].
  rewrite Hvalid. by rewrite bool_decide_eq_false_2 by (by intros H).
Qed.

Lemma input_run msg w answer ins :
  stdin w = answer :: ins →
  input msg w = (Return answer, mkWorld (files w) ins (stdout w ++ [msg])).
Proof. intros Hin. unfold input. by rewrite Hin. Qed.

(** C8. With valid names typed for the port and the directory, a text for
    the number of arguments that is neither empty nor numeric makes the call
    print the error line and then raise [UnboundLocalError]: no further
    prompt is written, no further line is read, and no default is taken. *)
Theorem get_port_input_unbound_arg_number
    w port_name short_description dir_name string_arg_number ins :
  stdin w = port_name :: short_description :: dir_name
            :: string_arg_number :: ins →
  is_valid_name port_name = "valid" →
  is_valid_name dir_name = "valid" →
  string_arg_number ≠ "" →
  isnumeric string_arg_number = false →
  get_port_input w =
    (Raise UnboundLocalError,
     mkWorld (files w) ins
       (stdout w ++
        [ "Port Name [ExamplePort]: ";
          "Short Description [Example usage of port]: ";
          "Directory Name [example_directory]: ";
          "Number of arguments [1]: ";
          "[ERROR] You have not entered a valid number" +:+ String LF "" ])).
Proof.
  intros Hin Hport Hdir Hne Hnum.
  unfold get_port_input, mbind, io_bind.
  erewrite ask_name_valid by eauto.
  erewrite input_run by (cbn [stdin]; eauto).
  erewrite ask_name_valid by (cbn [stdin]; eauto).
  erewrite input_run by (cbn [stdin]; eauto).
  unfold parse_arg_number.
  rewrite bool_decide_eq_false_2 by done. rewrite Hnum. cbn [negb].
  unfold mbind, io_bind, print, write_out, mret, io_ret, read_local, raise.
  cbn [files stdin stdout].
  by rewrite <- !(assoc_L (++)).
Qed.

Lemma get_port_input_unbound_arg_number_witness :
  get_port_input (mkWorld ∅ ["Ping"; "a ping"; "ports"; "abc"; "2"] [])
  = (Raise UnboundLocalError,
     mkWorld ∅ ["2"]
       ([] ++
        [ "Port Name [ExamplePort]: ";
          "Short Description [Example usage of port]: ";
          "Directory Name [example_directory]: ";
          "Number of arguments [1]: ";
          "[ERROR] You have not entered a valid number" +:+ String LF "" ])).
Proof.
  refine (get_port_input_unbound_arg_number
            (mkWorld ∅ ["Ping"; "a ping"; "ports"; "abc"; "2"] [])
            "Ping" "a ping" "ports" "abc" ["2"] _ _ _ _ _); by_evaluation.
Defined.

(** * Further properties of the module *)

(** ** is_valid_name: exactness and composition *)

Lemma str_in_single c s : str_in (String c "") s = has_char c s.
Proof.
  induction s as [|a s IH]; [done|].
  cbn [str_in starts_with has_char]. rewrite IH.
  rewrite andb_true_r. f_equal. apply bool_decide_ext. split; congruence.
Qed.

Lemma invalid_characters_single :
  Forall (λ c, ∃ ch, c = String ch "") invalid_characters.
Proof. repeat constructor; eexists; reflexivity. Qed.

Lemma valid_not_invalid_character : "valid" ∉ invalid_characters.
Proof. by_evaluation. Qed.

Lemma first_char_in_cases chars word :
  (first_char_in chars word = "valid"
   ∧ ∀ c, c ∈ chars → str_in c word = false)
  ∨ (first_char_in chars word ∈ chars
     ∧ str_in (first_char_in chars word) word = true).
Proof.
  induction chars as [|c chars IH]; simpl.
  - left. split; [done|]. intros c Hc. by apply elem_of_nil in Hc.
  - destruct (str_in c word) eqn:E.
    + right. split; [apply list_elem_of_here | done].
    + destruct IH as [[Hv Hall]|[Hin Hocc]].
      * left. split; [done|]. intros d Hd.
        apply elem_of_cons in Hd as [->|Hd]; auto.
      * right. split; [by apply list_elem_of_further | done].
Qed.

Lemma valid_iff_no_invalid_character word :
  is_valid_name word = "valid"
  ↔ ∀ c, c ∈ invalid_characters → str_in c word = false.
Proof.
  split; [|apply first_char_in_none].
  unfold is_valid_name. intros Hv.
  destruct (first_char_in_cases invalid_characters word)
    as [[_ Hall]|[Hin _]]; [done|].
  rewrite Hv in Hin. by apply valid_not_invalid_character in Hin.
Qed.

(** The answer is "valid" exactly for the words that hold none of the
    disallowed characters. *)
Theorem is_valid_name_valid_iff word :
  is_valid_name word = "valid"
  ↔ ∀ c, c ∈ invalid_characters → str_in c word = false.
Proof. apply valid_iff_no_invalid_character. Qed.

Lemma is_valid_name_valid_iff_witness : str_in "/" "Ping_Port-1" = false.
Proof.
  refine (proj1 (is_valid_name_valid_iff "Ping_Port-1") eq_refl "/" _).
  by_evaluation.
Defined.

(** An answer other than "valid" is one of the disallowed characters, and
    it occurs in the word. *)
Theorem is_valid_name_reports_occurring_char word :
  is_valid_name word ≠ "valid" →
  is_valid_name word ∈ invalid_characters
  ∧ str_in (is_valid_name word) word = true.
Proof.
  unfold is_valid_name. intros Hv.
  by destruct (first_char_in_cases invalid_characters word) as [[? _]|?].
Qed.

Lemma is_valid_name_reports_occurring_char_witness :
  is_valid_name "a|b c" ∈ invalid_characters
  ∧ str_in (is_valid_name "a|b c") "a|b c" = true.
Proof.
  refine (is_valid_name_reports_occurring_char "a|b c" _). by_evaluation.
Defined.

(** Two words joined are a valid name exactly when each of them is. *)
Theorem is_valid_name_app a b :
  is_valid_name (a +:+ b) = "valid"
  ↔ is_valid_name a = "valid" ∧ is_valid_name b = "valid".
Proof.
  rewrite !valid_iff_no_invalid_character.
  pose proof invalid_characters_single as Hsingle.
  rewrite Forall_forall in Hsingle.
  split.
  - intros H. split; intros c Hc; destruct (Hsingle c Hc) as [ch ->];
      specialize (H _ Hc); rewrite str_in_single, has_char_app in H;
      rewrite str_in_single; by apply orb_false_elim in H as [??].
  - intros [Ha Hb] c Hc. destruct (Hsingle c Hc) as [ch ->].
    specialize (Ha _ Hc). specialize (Hb _ Hc).
    rewrite str_in_single in *. by rewrite has_char_app, Ha, Hb.
Qed.

Lemma is_valid_name_app_witness :
  is_valid_name ("Ping" +:+ "PortAi.xml") = "valid".
Proof.
  exact (proj2 (is_valid_name_app "Ping" "PortAi.xml")
           (conj eq_refl eq_refl)).
Defined.

(** ** confirm: asking again *)

Lemma confirm_loop_reprompts msg bad rest out :
  Forall undecided bad →
  confirm_loop msg (bad ++ rest) out
  = confirm_loop msg rest (out ++ reprompts msg complaint bad).
Proof.
  intros H. revert out. induction H as [|b bad [Hy Hn] _ IH]; intros out.
  - simpl. by rewrite app_nil_r.
  - cbn [app confirm_loop].
    rewrite (bool_decide_eq_false_2 _ Hy), (bool_decide_eq_false_2 _ Hn).
    rewrite IH. f_equal. unfold reprompts, complaint. simpl.
    by rewrite <- !(assoc_L (++)).
Qed.

(** [confirm] goes through the answers that are neither yes nor no, writing
    the prompt and a complaint for each, and returns on the first answer
    that is one of them: [True] for a yes, [False] for a no. It reads no
    further and changes no file. *)
Theorem confirm_reprompts_until_answer msg w bad answer ins :
  stdin w = bad ++ answer :: ins →
  Forall undecided bad →
  accepts answer ∨ declines answer →
  confirm msg w =
    (Return (bool_decide (accepts answer)),
     mkWorld (files w) ins
       (stdout w ++ reprompts msg complaint bad ++ [msg])).
Proof.
  intros Hin Hbad Hans. unfold confirm. rewrite Hin.
  rewrite (confirm_loop_reprompts _ _ _ _ Hbad). cbn [confirm_loop].
  destruct Hans as [Hy|Hn].
  - rewrite !(bool_decide_eq_true_2 _ Hy). by rewrite <- (assoc_L (++)).
  - rewrite !(bool_decide_eq_false_2 _ (declines_not_accepts _ Hn)).
    rewrite (bool_decide_eq_true_2 _ Hn). by rewrite <- (assoc_L (++)).
Qed.

Lemma confirm_reprompts_until_answer_witness :
  confirm "ok? " (mkWorld ∅ ["maybe"; ""; "NO"; "yes"] [])
  = (Return false,
     mkWorld ∅ ["yes"]
       ([] ++ reprompts "ok? " complaint ["maybe"; ""] ++ ["ok? "])).
Proof.
  refine (confirm_reprompts_until_answer "ok? "
            (mkWorld ∅ ["maybe"; ""; "NO"; "yes"] [])
            ["maybe"; ""] "NO" ["yes"] _ _ _).
  - reflexivity.
  - repeat constructor; unfold accepts, declines;
      apply (bool_decide_unpack _); vm_compute; exact I.
  - right. by_evaluation.
Defined.

(** When the input ends before a yes or a no was typed, [confirm] raises
    [EOFError] after one more prompt. *)
Theorem confirm_end_of_input msg w :
  Forall undecided (stdin w) →
  confirm msg w =
    (Raise EOFError,
     mkWorld (files w) []
       (stdout w ++ reprompts msg complaint (stdin w) ++ [msg])).
Proof.
  intros Hbad. unfold confirm.
  rewrite <- (app_nil_r (stdin w)) at 1.
  rewrite (confirm_loop_reprompts _ _ _ _ Hbad). cbn [confirm_loop].
  by rewrite <- (assoc_L (++)).
Qed.

Lemma confirm_end_of_input_witness :
  confirm "ok? " (mkWorld ∅ ["maybe"] [])
  = (Raise EOFError,
     mkWorld ∅ [] ([] ++ reprompts "ok? " complaint ["maybe"] ++ ["ok? "])).
Proof.
  refine (confirm_end_of_input "ok? " (mkWorld ∅ ["maybe"] []) _).
  repeat constructor; unfold accepts, declines;
    apply (bool_decide_unpack _); vm_compute; exact I.
Defined.

(** ** get_port_input: what a completed dialogue returns *)

Lemma ask_name_loop_reprompts prompt what bad rest out :
  Forall (λ answer, is_valid_name answer ≠ "valid") bad →
  ask_name_loop prompt what (bad ++ rest) out
  = ask_name_loop prompt what rest
      (out ++ reprompts prompt (name_complaint what) bad).
Proof.
  intros H. revert out. induction H as [|b bad Hb _ IH]; intros out.
  - simpl. by rewrite app_nil_r.
  - cbn [app ask_name_loop]. rewrite (bool_decide_eq_true_2 _ Hb).
    rewrite IH. f_equal. unfold reprompts, name_complaint. simpl.
    by rewrite <- !(assoc_L (++)).
Qed.

Lemma ask_name_reprompts prompt what w bad answer ins :
  stdin w = bad ++ answer :: ins →
  Forall (λ a, is_valid_name a ≠ "valid") bad →
  is_valid_name answer = "valid" →
  ask_name prompt what w =
    (Return answer,
     mkWorld (files w) ins
       (stdout w ++ reprompts prompt (name_complaint what) bad ++ [prompt])).
Proof.
  intros Hin Hbad Hvalid. unfold ask_name. rewrite Hin.
  rewrite (ask_name_loop_reprompts _ _ _ _ _ Hbad). cbn [ask_name_loop].
  rewrite Hvalid. rewrite bool_decide_eq_false_2 by (by intros H).
  by rewrite <- (assoc_L (++)).
Qed.

Lemma ask_name_loop_returns_valid prompt what ins out answer ins' out' :
  ask_name_loop prompt what ins out = (Return answer, ins', out') →
  is_valid_name answer = "valid".
Proof.
  revert out. induction ins as [|a ins IH]; intros out H; [done|].
  cbn [ask_name_loop] in H. case_bool_decide as E.
  - by apply IH in H.
  - by injection H as <- _ _.
Qed.

Lemma ask_name_inv prompt what w answer w' :
  ask_name prompt what w = (Return answer, w') →
  is_valid_name answer = "valid" ∧ files w' = files w.
Proof.
  unfold ask_name.
  destruct (ask_name_loop prompt what (stdin w) (stdout w))
    as [[r ins] out] eqn:E.
  intros H. injection H as -> <-. split; [|done].
  by eapply ask_name_loop_returns_valid.
Qed.

Ltac solve_default :=
  match goal with
  | |- context [bool_decide (PStr ?x = _)] =>
      destruct (decide (x = "")) as [->|?];
      [ rewrite !bool_decide_eq_true_2 by done; reflexivity
      | rewrite !bool_decide_eq_false_2 by congruence; reflexivity ]
  end.

Lemma fill_defaults_values n desc d k :
  fill_defaults
    {[ "port_name" := PStr n; "short_description" := PStr desc;
       "dir_name" := PStr d; "arg_number" := PInt k ]}
  = {[ "port_name" := PStr (or_default n "ExamplePort");
       "short_description" := PStr (or_default desc "Example usage of port");
       "dir_name" := PStr (or_default d "example_directory");
       "arg_number" := PInt k ]}.
Proof.
  apply map_eq. intros key. unfold fill_defaults, or_default.
  rewrite map_lookup_imap.
  destruct (decide (key = "port_name")) as [->|N1].
  { rewrite !lookup_insert_eq. simpl. solve_default. }
  rewrite !(lookup_insert_ne _ "port_name") by done.
  destruct (decide (key = "short_description")) as [->|N2].
  { rewrite !lookup_insert_eq. simpl. solve_default. }
  rewrite !(lookup_insert_ne _ "short_description") by done.
  destruct (decide (key = "dir_name")) as [->|N3].
  { rewrite !lookup_insert_eq. simpl. solve_default. }
  rewrite !(lookup_insert_ne _ "dir_name") by done.
  destruct (decide (key = "arg_number")) as [->|N4].
  { rewrite !lookup_singleton_eq. reflexivity. }
  by rewrite !lookup_singleton_ne by done.
Qed.

Lemma input_files msg w r w' : input msg w = (r, w') → files w' = files w.
Proof.
  unfold input. destruct (stdin w); intros H; by injection H as _ <-.
Qed.

Lemma parse_arg_number_files s w r w' :
  parse_arg_number s w = (r, w') → files w' = files w.
Proof.
  unfold parse_arg_number. case_bool_decide.
  - intros E. by injection E as _ <-.
  - destruct (isnumeric s); simpl; intros E; by injection E as _ <-.
Qed.

Lemma or_default_valid typed fallback :
  is_valid_name typed = "valid" → is_valid_name fallback = "valid" →
  is_valid_name (or_default typed fallback) = "valid".
Proof. unfold or_default. by case_bool_decide. Qed.

Lemma or_default_not_empty typed fallback :
  fallback ≠ "" → or_default typed fallback ≠ "".
Proof. unfold or_default. by case_bool_decide. Qed.

(** A dialogue that runs to its end: answers rejected for the two names are
    asked again, an empty answer takes the default of its field, and an
    empty or numeric answer for the number of arguments gives 1 or its
    decimal value. The call returns the four entries and has read exactly
    the answers of the dialogue. *)
Theorem get_port_input_returns_answers
    w bad1 port_name short_description bad2 dir_name string_arg_number ins :
  stdin w = bad1 ++ port_name :: short_description
                 :: bad2 ++ dir_name :: string_arg_number :: ins →
  Forall (λ a, is_valid_name a ≠ "valid") bad1 →
  is_valid_name port_name = "valid" →
  Forall (λ a, is_valid_name a ≠ "valid") bad2 →
  is_valid_name dir_name = "valid" →
  string_arg_number = "" ∨ isnumeric string_arg_number = true →
  get_port_input w =
    (Return
       {[ "port_name" := PStr (or_default port_name "ExamplePort");
          "short_description" :=
            PStr (or_default short_description "Example usage of port");
          "dir_name" := PStr (or_default dir_name "example_directory");
          "arg_number" :=
            PInt (if bool_decide (string_arg_number = "") then 1
                  else int string_arg_number) ]},
     mkWorld (files w) ins
       (stdout w
        ++ reprompts "Port Name [ExamplePort]: "
             (name_complaint "port name") bad1
        ++ [ "Port Name [ExamplePort]: ";
             "Short Description [Example usage of port]: " ]
        ++ reprompts "Directory Name [example_directory]: "
             (name_complaint "directory name") bad2
        ++ [ "Directory Name [example_directory]: ";
             "Number of arguments [1]: " ])).
Proof.
  intros Hin Hbad1 Hport Hbad2 Hdir Hnum.
  unfold get_port_input, mbind, io_bind.
  erewrite ask_name_reprompts by eauto.
  erewrite input_run by (cbn [stdin]; eauto).
  erewrite ask_name_reprompts by (cbn [stdin]; eauto).
  erewrite input_run by (cbn [stdin]; eauto).
  cbn [files stdin stdout].
  assert (∀ w0,
    parse_arg_number string_arg_number w0
    = (Return (Some (if bool_decide (string_arg_number = "") then 1
                     else int string_arg_number)), w0)) as ->.
  { intros w0. unfold parse_arg_number. case_bool_decide as E; [done|].
    destruct Hnum as [Hs | ->]; done. }
  unfold read_local, mret, io_ret.
  rewrite fill_defaults_values.
  f_equal. f_equal. by rewrite <- !(assoc_L (++)).
Qed.

Lemma get_port_input_returns_answers_witness :
  get_port_input
    (mkWorld ∅ ["a b"; "Ping"; ""; "x/y"; "z?"; "ports"; "12"; "more"] [])
  = (Return
       {[ "port_name" := PStr "Ping";
          "short_description" := PStr "Example usage of port";
          "dir_name" := PStr "ports";
          "arg_number" := PInt 12 ]},
     mkWorld ∅ ["more"]
       ([]
        ++ reprompts "Port Name [ExamplePort]: "
             (name_complaint "port name") ["a b"]
        ++ [ "Port Name [ExamplePort]: ";
             "Short Description [Example usage of port]: " ]
        ++ reprompts "Directory Name [example_directory]: "
             (name_complaint "directory name") ["x/y"; "z?"]
        ++ [ "Directory Name [example_directory]: ";
             "Number of arguments [1]: " ])).
Proof.
  refine (get_port_input_returns_answers
            (mkWorld ∅ ["a b"; "Ping"; ""; "x/y"; "z?"; "ports"; "12"; "more"]
               [])
            ["a b"] "Ping" "" ["x/y"; "z?"] "ports" "12" ["more"]
            _ _ _ _ _ _); by_evaluation.
Defined.

(** Whatever is typed, a dictionary that [get_port_input] returns has the
    four entries, with a port name and a directory name that are valid
    names, no text entry empty, and no file changed. *)
Theorem get_port_input_result_is_valid w values w' :
  get_port_input w = (Return values, w') →
  ∃ port_name short_description dir_name arg_number,
    values = {[ "port_name" := PStr port_name;
                "short_description" := PStr short_description;
                "dir_name" := PStr dir_name;
                "arg_number" := PInt arg_number ]}
    ∧ is_valid_name port_name = "valid" ∧ port_name ≠ ""
    ∧ is_valid_name dir_name = "valid" ∧ dir_name ≠ ""
    ∧ short_description ≠ ""
    ∧ files w' = files w.
Proof.
  unfold get_port_input, mbind, io_bind. intros H.
  destruct (ask_name _ _ w) as [[n|e] w1] eqn:E1; [|done].
  destruct (input _ w1) as [[desc|e] w2] eqn:E2; [|done].
  destruct (ask_name _ _ w2) as [[d|e] w3] eqn:E3; [|done].
  destruct (input _ w3) as [[s|e] w4] eqn:E4; [|done].
  destruct (parse_arg_number s w4) as [[[k|]|e] w5] eqn:E5;
    [|unfold read_local, raise in H; discriminate H|discriminate H].
  unfold read_local, mret, io_ret in H.
  pose proof (f_equal snd H) as Hw. cbn [snd] in Hw. subst w'.
  pose proof (f_equal (λ p, match fst p with
                            | Return a => a
                            | Raise _ => values
                            end) H) as Hv.
  cbn [fst] in Hv. subst values. clear H.
  apply ask_name_inv in E1 as [Hn F1]. apply input_files in E2.
  apply ask_name_inv in E3 as [Hd F3]. apply input_files in E4.
  apply parse_arg_number_files in E5.
  eexists _, _, _, _. split; [apply fill_defaults_values|].
  repeat split.
  - by apply or_default_valid.
  - by apply or_default_not_empty.
  - by apply or_default_valid.
  - by apply or_default_not_empty.
  - by apply or_default_not_empty.
  - congruence.
Qed.

Lemma get_port_input_result_is_valid_witness :
  ∃ port_name short_description dir_name arg_number,
    {[ "port_name" := PStr "ExamplePort";
       "short_description" := PStr "Example usage of port";
       "dir_name" := PStr "example_directory";
       "arg_number" := PInt 1 ]}
    = ({[ "port_name" := PStr port_name;
          "short_description" := PStr short_description;
          "dir_name" := PStr dir_name;
          "arg_number" := PInt arg_number ]} : gmap string pyval)
    ∧ is_valid_name port_name = "valid" ∧ port_name ≠ ""
    ∧ is_valid_name dir_name = "valid" ∧ dir_name ≠ ""
    ∧ short_description ≠ ""
    ∧ files (mkWorld ∅ [] [ "Port Name [ExamplePort]: ";
                            "Short Description [Example usage of port]: ";
                            "Directory Name [example_directory]: ";
                            "Number of arguments [1]: " ])
      = files (mkWorld ∅ [""; ""; ""; ""] []).
Proof.
  refine (get_port_input_result_is_valid
            (mkWorld ∅ [""; ""; ""; ""] []) _ _ _).
  vm_compute. reflexivity.
Defined.

(** ** add_to_cmake: what stays untouched, and the run that ends the file *)

Lemma confirm_files msg w : files (snd (confirm msg w)) = files w.
Proof.
  unfold confirm. by destruct (confirm_loop _ _ _) as [[r ins] out].
Qed.

(** Whatever the build list holds and whatever is typed, a call changes no
    file but the build list it was given. *)
Theorem add_to_cmake_touches_only_list_file list_file comp_path w other :
  other ≠ list_file →
  files (snd (add_to_cmake list_file comp_path w)) !! other
  = files w !! other.
Proof.
  intros Hother.
  destruct (files w !! list_file) as [text|] eqn:Hfile.
  2:{ by rewrite (add_to_cmake_missing_file _ _ _ Hfile). }
  rewrite (add_to_cmake_unfold _ _ _ _ Hfile). cbn zeta.
  destruct (find_insertion_index (lines_of text)) as [index|e]; [|done].
  pose proof (confirm_files (confirm_prompt list_file comp_path)
                (mkWorld (files w) (stdin w)
                   (stdout w ++ [found_message list_file +:+ String LF ""])))
    as Hc.
  destruct (confirm _ _) as [[[]|e] w2]; cbn [snd files] in *.
  - destruct (list_in _ _); cbn [snd files]; [by rewrite Hc|].
    rewrite lookup_insert_ne by done. by rewrite Hc.
  - by rewrite Hc.
  - by rewrite Hc.
Qed.

Lemma add_to_cmake_touches_only_list_file_witness :
  files (snd (add_to_cmake "CMakeLists.txt" "Comp"
                (mkWorld {[ "CMakeLists.txt" := sample_lists;
                            "Comp/Comp.cpp" := "int x;" ]} ["yes"] [])))
    !! "Comp/Comp.cpp"
  = Some "int x;".
Proof.
  refine (add_to_cmake_touches_only_list_file "CMakeLists.txt" "Comp"
            (mkWorld {[ "CMakeLists.txt" := sample_lists;
                        "Comp/Comp.cpp" := "int x;" ]} ["yes"] [])
            "Comp/Comp.cpp" _).
  discriminate.
Defined.

Lemma find_insertion_index_run_to_end pre block :
  Forall unmarked pre → block ≠ [] → Forall marked block →
  find_insertion_index (pre ++ block) = Raise IndexError.
Proof.
  intros Hpre Hne Hblock. unfold find_insertion_index.
  rewrite (skip_unmarked_app _ _ _ Hpre).
  destruct block as [|b block]; [done|].
  apply Forall_cons in Hblock as Hb. destruct Hb as [Hb _].
  unfold marked in Hb. simpl. rewrite Hb. simpl.
  unfold mbind, result_bind. rewrite drop_app_length.
  rewrite <- (app_nil_r (b :: block)).
  by rewrite (skip_marked_app _ _ _ Hblock).
Qed.

(** A build list whose run of marked lines is its last lines, as a list of
    nothing but inclusion directives is, makes the call raise [IndexError]
    before anything is asked; the file stays as it was. *)
Theorem add_to_cmake_marker_run_to_end_raises
    list_file comp_path w text pre block :
  files w !! list_file = Some text →
  lines_of text = pre ++ block →
  Forall unmarked pre → block ≠ [] → Forall marked block →
  add_to_cmake list_file comp_path w =
    (Raise IndexError,
     mkWorld (files w) (stdin w) (stdout w ++ [found_line list_file])).
Proof.
  intros Hfile Hlines Hpre Hne Hblock.
  rewrite (add_to_cmake_unfold _ _ _ _ Hfile). cbn zeta.
  by rewrite Hlines, (find_insertion_index_run_to_end _ _ Hpre Hne Hblock).
Qed.

Lemma add_to_cmake_marker_run_to_end_raises_witness :
  add_to_cmake "CMakeLists.txt" "New"
    (mkWorld {[ "CMakeLists.txt" := sample_libraries ]} ["yes"] [])
  = (Raise IndexError,
     mkWorld {[ "CMakeLists.txt" := sample_libraries ]} ["yes"]
       ([] ++ [found_line "CMakeLists.txt"])).
Proof.
  refine (add_to_cmake_marker_run_to_end_raises "CMakeLists.txt" "New"
            (mkWorld {[ "CMakeLists.txt" := sample_libraries ]} ["yes"] [])
            sample_libraries [] (lines_of sample_libraries) _ _ _ _ _);
    by_evaluation.
Defined.

(** An accepted insertion writes the text as it was read, that is with its
    line ends turned into LF, cut in two at a line boundary with the
    directive in between: no other character of the build list changes. *)
Theorem add_to_cmake_splices_directive
    list_file comp_path w text answer ins :
  files w !! list_file = Some text →
  has_insertion_point (lines_of text) →
  directive comp_path ∉ lines_of text →
  stdin w = answer :: ins → accepts answer →
  ∃ before after,
    universal_newlines text = before +:+ after
    ∧ fst (add_to_cmake list_file comp_path w) = Return true
    ∧ files (snd (add_to_cmake list_file comp_path w))
      = <[list_file := before +:+ directive comp_path +:+ after]> (files w)
    ∧ (has_char CR text = false → text = before +:+ after).
Proof.
  intros Hfile Hpoint Hnew Hin Hyes.
  apply has_insertion_point_index in Hpoint as [index Hindex].
  exists (join (take index (lines_of text))),
         (join (drop index (lines_of text))).
  assert (universal_newlines text
          = join (take index (lines_of text))
            +:+ join (drop index (lines_of text))) as Hsplit.
  { rewrite <- join_app, take_drop. unfold lines_of.
    by rewrite join_splitlines. }
  rewrite (add_to_cmake_unfold _ _ _ _ Hfile). cbn zeta. rewrite Hindex.
  erewrite confirm_accepts by (cbn [stdin]; eauto).
  unfold list_in. rewrite bool_decide_eq_false_2 by done.
  cbn [fst snd files]. rewrite join_insert_at.
  repeat split; [done|].
  intros HCR. by rewrite <- Hsplit, universal_newlines_id.
Qed.

Lemma add_to_cmake_splices_directive_witness :
  ∃ before after,
    universal_newlines sample_lists = before +:+ after
    ∧ fst (add_to_cmake "CMakeLists.txt" "Comp"
             (mkWorld {[ "CMakeLists.txt" := sample_lists ]} ["y"] []))
      = Return true
    ∧ files (snd (add_to_cmake "CMakeLists.txt" "Comp"
                    (mkWorld {[ "CMakeLists.txt" := sample_lists ]} ["y"] [])))
      = <["CMakeLists.txt" := before +:+ directive "Comp" +:+ after]>
          {[ "CMakeLists.txt" := sample_lists ]}
    ∧ (has_char CR sample_lists = false → sample_lists = before +:+ after).
Proof.
  refine (add_to_cmake_splices_directive "CMakeLists.txt" "Comp"
            (mkWorld {[ "CMakeLists.txt" := sample_lists ]} ["y"] [])
            sample_lists "y" [] _ _ _ _ _); try by_evaluation.
  exists ["project(Ref)
"], ["add_fprime_subdirectory(A)
"; "add_fprime_subdirectory(B)
"], "include(Top)
", [].
  repeat split; by_evaluation.
Defined.

(** ** add_port_to_cmake *)

Lemma skip_to_source_files_app pre rest i :
  Forall (λ line, line ≠ source_files_line) pre →
  skip_to_source_files (pre ++ rest) i
  = skip_to_source_files rest (i + length pre).
Proof.
  intros H. revert i. induction H as [|x pre Hx _ IH]; intros i; simpl.
  - f_equal. lia.
  - rewrite (bool_decide_eq_true_2 _ Hx), IH. f_equal. lia.
Qed.

Lemma skip_to_source_files_found pre rest :
  Forall (λ line, line ≠ source_files_line) pre →
  skip_to_source_files (pre ++ source_files_line :: rest) 0
  = Return (length pre).
Proof.
  intros H. rewrite (skip_to_source_files_app _ _ _ H).
  cbn [skip_to_source_files]. by case_bool_decide.
Qed.

Lemma skip_to_source_files_missing lines i :
  Forall (λ line, line ≠ source_files_line) lines →
  skip_to_source_files lines i = Raise IndexError.
Proof.
  intros H. revert i. induction H as [|x l Hx _ IH]; intros i; simpl; [done|].
  by rewrite (bool_decide_eq_true_2 _ Hx), IH.
Qed.

Lemma add_port_to_cmake_unfold list_file comp_path w text :
  files w !! list_file = Some text →
  add_port_to_cmake list_file comp_path w =
    let w1 := mkWorld (files w) (stdin w)
                (stdout w ++ [found_message list_file +:+ String LF ""]) in
    match skip_to_source_files (lines_of text) 0 with
    | Raise e => (Raise e, w1)
    | Return index =>
        match confirm (port_prompt list_file comp_path) w1 with
        | (Return true, w2) =>
            (Return true,
             mkWorld (<[list_file :=
                          join (list_insert_at (S index)
                                  (port_entry comp_path) (lines_of text))]>
                        (files w2))
               (stdin w2) (stdout w2))
        | (Return false, w2) => (Return false, w2)
        | (Raise e, w2) => (Raise e, w2)
        end
    end.
Proof.
  intros Hfile.
  unfold add_port_to_cmake, mbind, io_bind, print, write_out, readlines, lift.
  cbn [files stdin stdout]. rewrite Hfile.
  destruct (skip_to_source_files (lines_of text) 0) as [index|e]; [|done].
  cbn zeta.
  by destruct (confirm _ _) as [[[]|e] w2].
Qed.

Lemma list_insert_at_after {A} (pre rest : list A) m x :
  list_insert_at (S (length pre)) x (pre ++ m :: rest)
  = pre ++ m :: x :: rest.
Proof.
  replace (S (length pre)) with (length (pre ++ [m]))
    by (rewrite length_app; simpl; lia).
  rewrite (cons_middle m pre rest), (assoc_L (++)), list_insert_at_app.
  by rewrite <- (assoc_L (++)).
Qed.

Lemma add_port_to_cmake_accepted list_file comp_path w text pre rest answer ins :
  files w !! list_file = Some text →
  lines_of text = pre ++ source_files_line :: rest →
  Forall (λ line, line ≠ source_files_line) pre →
  stdin w = answer :: ins → accepts answer →
  add_port_to_cmake list_file comp_path w =
    (Return true,
     mkWorld
       (<[list_file :=
            join (pre ++ source_files_line :: port_entry comp_path :: rest)]>
          (files w))
       ins
       (stdout w ++ [found_line list_file;
                     port_prompt list_file comp_path])).
Proof.
  intros Hfile Hlines Hpre Hin Hyes.
  rewrite (add_port_to_cmake_unfold _ _ _ _ Hfile). cbn zeta.
  rewrite Hlines, (skip_to_source_files_found _ _ Hpre).
  erewrite confirm_accepts by (cbn [stdin]; eauto).
  cbn [files stdin stdout]. rewrite list_insert_at_after.
  unfold found_line. by rewrite <- (assoc_L (++)).
Qed.

(** An accepted call puts the entry as the line right after the first line
    that is exactly the opening of the source list, so as the first entry of
    the list, and changes nothing else of the lines read. *)
Theorem add_port_to_cmake_inserts_first_entry
    list_file comp_path w text pre rest answer ins :
  files w !! list_file = Some text →
  lines_of text = pre ++ source_files_line :: rest →
  Forall (λ line, line ≠ source_files_line) pre →
  stdin w = answer :: ins → accepts answer →
  add_port_to_cmake list_file comp_path w =
    (Return true,
     mkWorld
       (<[list_file :=
            join (pre ++ source_files_line :: port_entry comp_path :: rest)]>
          (files w))
       ins
       (stdout w ++ [found_line list_file;
                     port_prompt list_file comp_path])).
Proof. apply add_port_to_cmake_accepted. Qed.

Lemma add_port_to_cmake_inserts_first_entry_witness :
  add_port_to_cmake "ports/CMakeLists.txt" "PongPortAi.xml"
    (mkWorld {[ "ports/CMakeLists.txt" := sample_port_lists ]} ["Y"] [])
  = (Return true,
     mkWorld
       (<["ports/CMakeLists.txt" :=
            join ([] ++ source_files_line :: port_entry "PongPortAi.xml"
                    :: ["  PingPortAi.xml
"; ")
"; "register_fprime_module()
"])]> {[ "ports/CMakeLists.txt" := sample_port_lists ]})
       []
       ([] ++ [found_line "ports/CMakeLists.txt";
               port_prompt "ports/CMakeLists.txt" "PongPortAi.xml"])).
Proof.
  refine (add_port_to_cmake_inserts_first_entry
            "ports/CMakeLists.txt" "PongPortAi.xml"
            (mkWorld {[ "ports/CMakeLists.txt" := sample_port_lists ]} ["Y"] [])
            sample_port_lists [] _ "Y" [] _ _ _ _ _); by_evaluation.
Defined.

(** Without a line that is exactly the opening of the source list (an empty
    file, or an opening written with other spacing) the call raises
    [IndexError] before anything is asked, and the file stays as it was. *)
Theorem add_port_to_cmake_without_marker_raises list_file comp_path w text :
  files w !! list_file = Some text →
  Forall (λ line, line ≠ source_files_line) (lines_of text) →
  add_port_to_cmake list_file comp_path w =
    (Raise IndexError,
     mkWorld (files w) (stdin w) (stdout w ++ [found_line list_file])).
Proof.
  intros Hfile Hlines.
  rewrite (add_port_to_cmake_unfold _ _ _ _ Hfile). cbn zeta.
  by rewrite (skip_to_source_files_missing _ _ Hlines).
Qed.

Lemma add_port_to_cmake_without_marker_raises_witness :
  add_port_to_cmake "ports/CMakeLists.txt" "PongPortAi.xml"
    (mkWorld {[ "ports/CMakeLists.txt" := "set(SOURCE_FILES PingPortAi.xml)
" ]} ["yes"] [])
  = (Raise IndexError,
     mkWorld {[ "ports/CMakeLists.txt" := "set(SOURCE_FILES PingPortAi.xml)
" ]} ["yes"] ([] ++ [found_line "ports/CMakeLists.txt"])).
Proof.
  refine (add_port_to_cmake_without_marker_raises
            "ports/CMakeLists.txt" "PongPortAi.xml"
            (mkWorld {[ "ports/CMakeLists.txt" :=
                          "set(SOURCE_FILES PingPortAi.xml)
" ]} ["yes"] [])
            "set(SOURCE_FILES PingPortAi.xml)
" _ _); by_evaluation.
Defined.

Lemma port_entry_terminated comp_path :
  has_char LF comp_path = false → terminated (port_entry comp_path).
Proof.
  intros H.
  exists (String DQUOTE "${CMAKE_CURRENT_LIST_DIR}/" +:+ comp_path
          +:+ "/" +:+ String DQUOTE ")").
  split.
  - unfold port_entry. rewrite !app_assoc_str. reflexivity.
  - rewrite !has_char_app, H. reflexivity.
Qed.

Lemma port_entry_no_CR comp_path :
  has_char CR comp_path = false → has_char CR (port_entry comp_path) = false.
Proof.
  intros H. unfold port_entry. rewrite !has_char_app, H. reflexivity.
Qed.

Lemma port_entry_not_opening comp_path :
  port_entry comp_path ≠ source_files_line.
Proof.
  intros H.
  apply (f_equal (λ s, match s with
                       | String c _ => bool_decide (c = DQUOTE)
                       | EmptyString => false
                       end)) in H.
  vm_compute in H. discriminate H.
Qed.

Lemma lines_shape_insert_after pre m x rest :
  lines_shape (pre ++ m :: rest) → terminated m → terminated x →
  lines_shape (pre ++ m :: x :: rest).
Proof.
  intros Hl Hm Hx. induction pre as [|y pre IH].
  - simpl in *. split; [done|]. destruct rest as [|r rest].
    + by left.
    + destruct Hl as [_ Hl]. by split.
  - change (lines_shape (y :: (pre ++ m :: rest))) in Hl.
    change (lines_shape (y :: (pre ++ m :: x :: rest))).
    destruct (pre ++ m :: rest) as [|z zs] eqn:E.
    { by destruct pre. }
    destruct Hl as [Hy Hl]. apply lines_shape_cons; [done|]. by apply IH.
Qed.

Lemma lines_of_join_after text pre rest comp_path :
  lines_of text = pre ++ source_files_line :: rest →
  has_char LF comp_path = false → has_char CR comp_path = false →
  lines_of (join (pre ++ source_files_line :: port_entry comp_path :: rest))
  = pre ++ source_files_line :: port_entry comp_path :: rest.
Proof.
  intros Hlines HLF HCR. unfold lines_of at 1.
  rewrite universal_newlines_id.
  - apply splitlines_join. apply lines_shape_insert_after.
    + rewrite <- Hlines. apply splitlines_shape.
    + by exists "set(SOURCE_FILES".
    + by apply port_entry_terminated.
  - rewrite <- list_insert_at_after, has_char_join_insert_at.
    rewrite (port_entry_no_CR _ HCR), <- Hlines.
    unfold lines_of. rewrite join_splitlines.
    apply universal_newlines_no_CR.
Qed.

(** The port variant makes no duplicate check: a second accepted call with
    the same entry, for a path without line break, writes the entry a second
    time, right after the opening of the source list. *)
Theorem add_port_to_cmake_twice_inserts_twice
    list_file comp_path w text pre rest a1 a2 ins :
  files w !! list_file = Some text →
  lines_of text = pre ++ source_files_line :: rest →
  Forall (λ line, line ≠ source_files_line) pre →
  has_char LF comp_path = false → has_char CR comp_path = false →
  stdin w = a1 :: a2 :: ins → accepts a1 → accepts a2 →
  add_port_to_cmake list_file comp_path
    (snd (add_port_to_cmake list_file comp_path w))
  = (Return true,
     mkWorld
       (<[list_file :=
            join (pre ++ source_files_line :: port_entry comp_path
                    :: port_entry comp_path :: rest)]> (files w))
       ins
       (stdout w ++ [found_line list_file;
                     port_prompt list_file comp_path;
                     found_line list_file;
                     port_prompt list_file comp_path])).
Proof.
  intros Hfile Hlines Hpre HLF HCR Hin Hyes1 Hyes2.
  rewrite (add_port_to_cmake_accepted _ _ _ _ _ _ _ _
             Hfile Hlines Hpre Hin Hyes1).
  cbn [snd].
  erewrite add_port_to_cmake_accepted; cycle 1.
  - cbn [files]. apply lookup_insert_eq.
  - exact (lines_of_join_after text pre _ comp_path Hlines HLF HCR).
  - exact Hpre.
  - reflexivity.
  - exact Hyes2.
  - cbn [files stdout]. rewrite insert_insert_eq.
    by rewrite <- (assoc_L (++)).
Qed.

Lemma add_port_to_cmake_twice_inserts_twice_witness :
  add_port_to_cmake "ports/CMakeLists.txt" "PongPortAi.xml"
    (snd (add_port_to_cmake "ports/CMakeLists.txt" "PongPortAi.xml"
            (mkWorld {[ "ports/CMakeLists.txt" := sample_port_lists ]}
               ["y"; "y"] [])))
  = (Return true,
     mkWorld
       (<["ports/CMakeLists.txt" :=
            join ([] ++ source_files_line :: port_entry "PongPortAi.xml"
                    :: port_entry "PongPortAi.xml"
                    :: ["  PingPortAi.xml
"; ")
"; "register_fprime_module()
"])]> {[ "ports/CMakeLists.txt" := sample_port_lists ]})
       []
       ([] ++ [found_line "ports/CMakeLists.txt";
               port_prompt "ports/CMakeLists.txt" "PongPortAi.xml";
               found_line "ports/CMakeLists.txt";
               port_prompt "ports/CMakeLists.txt" "PongPortAi.xml"])).
Proof.
  refine (add_port_to_cmake_twice_inserts_twice
            "ports/CMakeLists.txt" "PongPortAi.xml"
            (mkWorld {[ "ports/CMakeLists.txt" := sample_port_lists ]}
               ["y"; "y"] [])
            sample_port_lists [] _ "y" "y" [] _ _ _ _ _ _ _ _);
    by_evaluation.
Defined.

(** ** find_nearest_cmake_lists: what a result is, and when there is one *)

Lemma search_up_sound fuel is_file root test_path f :
  search_up fuel is_file (Some root) test_path = Some (Some f) →
  is_file f = true
  ∧ ∃ k, f = child (ancestor k test_path) "CMakeLists.txt"
         ∧ ancestor k test_path ≠ parent root.
Proof.
  revert test_path. induction fuel as [|fuel IH]; intros tp H; [done|].
  cbn [search_up] in H. case_bool_decide as Hguard; [|done].
  destruct (is_file (child tp "CMakeLists.txt")) eqn:Hfile.
  - injection H as <-. split; [done|]. by exists 0.
  - destruct (IH _ H) as (Hf & k & -> & Hk). split; [done|]. by exists (S k).
Qed.

(** A path that the call returns is a regular file named [CMakeLists.txt],
    in the parent of the component directory or in the deployment directory
    or in a directory above one of them, and never in the parent of the
    project root. *)
Theorem find_nearest_cmake_lists_sound
    fuel is_file component_dir deployment proj_root f :
  find_nearest_cmake_lists fuel is_file component_dir deployment proj_root
  = Some (Return (Some f)) →
  is_file f = true
  ∧ ∃ k dir,
      f = child dir "CMakeLists.txt"
      ∧ (dir = ancestor (S k) component_dir ∨ dir = ancestor k deployment)
      ∧ ∀ root, proj_root = Some root → dir ≠ parent root.
Proof.
  unfold find_nearest_cmake_lists. destruct proj_root as [root|]; [|done].
  cbn [search_passes]. intros H.
  destruct (search_up fuel is_file (Some root) (parent component_dir))
    as [[f1|]|] eqn:E1; [| |done].
  - injection H as <-. apply search_up_sound in E1 as (Hf & k & -> & Hk).
    split; [done|]. exists k, (ancestor k (parent component_dir)).
    split; [done|]. split; [by left|]. by intros ? [= <-].
  - destruct (search_up fuel is_file (Some root) deployment)
      as [[f2|]|] eqn:E2; [|done|done].
    injection H as <-. apply search_up_sound in E2 as (Hf & k & -> & Hk).
    split; [done|]. exists k, (ancestor k deployment).
    split; [done|]. split; [by right|]. by intros ? [= <-].
Qed.

Lemma find_nearest_cmake_lists_sound_witness :
  only_at_A (child dir_A "CMakeLists.txt") = true
  ∧ ∃ k dir,
      child dir_A "CMakeLists.txt" = child dir "CMakeLists.txt"
      ∧ (dir = ancestor (S k) dir_C ∨ dir = ancestor k dir_B)
      ∧ ∀ root, Some dir_A = Some root → dir ≠ parent root.
Proof.
  refine (find_nearest_cmake_lists_sound 3 only_at_A dir_C dir_B (Some dir_A)
            (child dir_A "CMakeLists.txt") _).
  reflexivity.
Defined.

Lemma length_removelast_pred {A} (l : list A) :
  length (removelast l) = pred (length l).
Proof.
  induction l as [|x l IH]; [done|]. destruct l; [done|].
  change (length (removelast (x :: a :: l)))
    with (S (length (removelast (a :: l)))).
  rewrite IH. reflexivity.
Qed.

Lemma descend_not_parent root l :
  names root ≠ [] ∨ l ≠ [] → descend root l ≠ parent root.
Proof.
  intros Hne H. apply (f_equal (λ q, length (names q))) in H. simpl in H.
  rewrite length_app, length_removelast_pred in H.
  destruct Hne as [Hne|Hne].
  - destruct (names root); [done|]. simpl in H. lia.
  - destruct l; [done|]. simpl in H. lia.
Qed.

Lemma descend_snoc root l x : descend root (l ++ [x]) = child (descend root l) x.
Proof. unfold descend, child. simpl. by rewrite (assoc_L (++)). Qed.

Lemma descend_nil root : descend root [] = root.
Proof. destruct root. unfold descend. simpl. by rewrite app_nil_r. Qed.

Lemma search_up_nearest fuel is_file root l1 l2 :
  names root ≠ [] ∨ l1 ≠ [] →
  is_file (child (descend root l1) "CMakeLists.txt") = true →
  (∀ l2' rest, l2 = l2' ++ rest → l2' ≠ [] →
     is_file (child (descend root (l1 ++ l2')) "CMakeLists.txt") = false) →
  length l2 + 1 ≤ fuel →
  search_up fuel is_file (Some root) (descend root (l1 ++ l2))
  = Some (Some (child (descend root l1) "CMakeLists.txt")).
Proof.
  intros Hne Hhere. revert fuel.
  induction l2 as [|x l2 IH] using rev_ind; intros fuel Hbelow Hfuel.
  - destruct fuel as [|fuel]; [simpl in Hfuel; lia|].
    rewrite app_nil_r. cbn [search_up].
    rewrite bool_decide_eq_true_2 by (by apply descend_not_parent).
    by rewrite Hhere.
  - rewrite length_app in Hfuel. simpl in Hfuel.
    destruct fuel as [|fuel]; [lia|].
    rewrite (assoc_L (++)), descend_snoc. cbn [search_up].
    rewrite <- descend_snoc, <- (assoc_L (++)).
    rewrite bool_decide_eq_true_2.
    2:{ apply descend_not_parent. right. by destruct l1, l2. }
    rewrite (Hbelow (l2 ++ [x]) []) by (by rewrite ?app_nil_r; destruct l2).
    rewrite (assoc_L (++)), descend_snoc, parent_child.
    apply IH; [|lia].
    intros l2' rest -> Hl2'. apply (Hbelow l2' (rest ++ [x])); [|done].
    by rewrite (assoc_L (++)).
Qed.

(** The nearest wins: when a directory strictly between the project root
    and the component has a build list, the call returns the build list of
    the closest such directory above the component, whatever the deployment
    is and whatever lies higher up. *)
Theorem find_nearest_cmake_lists_returns_nearest
    fuel is_file root l1 l2 name deployment :
  l1 ≠ [] →
  is_file (child (descend root l1) "CMakeLists.txt") = true →
  (∀ l2' rest, l2 = l2' ++ rest → l2' ≠ [] →
     is_file (child (descend root (l1 ++ l2')) "CMakeLists.txt") = false) →
  length l2 + 1 ≤ fuel →
  find_nearest_cmake_lists fuel is_file
    (child (descend root (l1 ++ l2)) name) deployment (Some root)
  = Some (Return (Some (child (descend root l1) "CMakeLists.txt"))).
Proof.
  intros Hne Hhere Hbelow Hfuel. unfold find_nearest_cmake_lists.
  rewrite parent_child. cbn [search_passes].
  by rewrite (search_up_nearest _ _ _ _ _ (or_intror Hne) Hhere Hbelow Hfuel).
Qed.

Lemma find_nearest_cmake_lists_returns_nearest_witness :
  find_nearest_cmake_lists 2 at_A_and_B
    (child (descend dir_A (["B"] ++ ["Sub"])) "C") dir_X (Some dir_A)
  = Some (Return (Some (child (descend dir_A ["B"]) "CMakeLists.txt"))).
Proof.
  refine (find_nearest_cmake_lists_returns_nearest 2 at_A_and_B dir_A
            ["B"] ["Sub"] "C" dir_X _ _ _ _).
  - discriminate.
  - reflexivity.
  - intros l2' rest E Hne. destruct l2' as [|a l2']; [by destruct Hne|].
    injection E as <- E. destruct l2'; [reflexivity|discriminate E].
  - simpl. lia.
Defined.

Lemma search_up_none_below fuel is_file root l :
  (∀ l' rest, l = l' ++ rest →
     is_file (child (descend root l') "CMakeLists.txt") = false) →
  length l + 2 ≤ fuel →
  search_up fuel is_file (Some root) (descend root l) = Some None.
Proof.
  revert fuel. induction l as [|x l IH] using rev_ind; intros fuel Hno Hfuel.
  - destruct fuel as [|[|fuel]]; simpl in Hfuel; try lia.
    cbn [search_up]. case_bool_decide; [|done].
    rewrite (Hno [] []) by done. rewrite descend_nil.
    by rewrite bool_decide_eq_false_2 by (by intros H').
  - rewrite length_app in Hfuel. simpl in Hfuel.
    destruct fuel as [|fuel]; [lia|].
    cbn [search_up]. case_bool_decide; [|done].
    rewrite (Hno (l ++ [x]) []) by (by rewrite app_nil_r).
    rewrite descend_snoc, parent_child. apply IH; [|lia].
    intros l' rest ->. apply (Hno l' (rest ++ [x])).
    by rewrite (assoc_L (++)).
Qed.

(** Nothing found: when the component and the deployment lie below the
    project root and no directory from the parent of the component up to
    the root, nor from the deployment up to the root, has a build list, the
    call returns [None]. *)
Theorem find_nearest_cmake_lists_none_found
    fuel is_file root lc name ld :
  (∀ l' rest, lc = l' ++ rest →
     is_file (child (descend root l') "CMakeLists.txt") = false) →
  (∀ l' rest, ld = l' ++ rest →
     is_file (child (descend root l') "CMakeLists.txt") = false) →
  length lc + 2 ≤ fuel → length ld + 2 ≤ fuel →
  find_nearest_cmake_lists fuel is_file
    (child (descend root lc) name) (descend root ld) (Some root)
  = Some (Return None).
Proof.
  intros Hc Hd Fc Fd. unfold find_nearest_cmake_lists. rewrite parent_child.
  cbn [search_passes].
  rewrite (search_up_none_below _ _ _ _ Hc Fc).
  by rewrite (search_up_none_below _ _ _ _ Hd Fd).
Qed.

Lemma find_nearest_cmake_lists_none_found_witness :
  find_nearest_cmake_lists 3 (λ p, bool_decide (p = child dir_C "CMakeLists.txt"))
    (child (descend dir_A ["B"]) "C") (descend dir_A ["X"]) (Some dir_A)
  = Some (Return None).
Proof.
  refine (find_nearest_cmake_lists_none_found 3
            (λ p, bool_decide (p = child dir_C "CMakeLists.txt"))
            dir_A ["B"] "C" ["X"] _ _ _ _); try (simpl; lia).
  - intros l' rest E. destruct l' as [|a [|b l']]; [reflexivity| |].
    + injection E as <- _. reflexivity.
    + by destruct l'.
  - intros l' rest E. destruct l' as [|a [|b l']]; [reflexivity| |].
    + injection E as <- _. reflexivity.
    + by destruct l'.
Defined.

Lemma search_up_never_ends fuel is_file root test_path :
  (∀ k, ancestor k test_path ≠ parent root) →
  (∀ k, is_file (child (ancestor k test_path) "CMakeLists.txt") = false) →
  search_up fuel is_file (Some root) test_path = None.
Proof.
  revert test_path. induction fuel as [|fuel IH]; intros tp Hout Hno; [done|].
  cbn [search_up].
  rewrite bool_decide_eq_true_2 by apply (Hout 0).
  pose proof (Hno 0) as Hhere. cbn [ancestor] in Hhere. rewrite Hhere.
  apply IH.
  - intros k. apply (Hout (S k)).
  - intros k. apply (Hno (S k)).
Qed.

(** No way out: when no directory from the parent of the component upwards
    is the parent of the project root, as for a component that does not lie
    below it, and none of them has a build list, the first loop climbs to
    the top of the file system and stays there: the call returns nothing,
    however many iterations it is given. *)
Theorem find_nearest_cmake_lists_never_returns_outside
    fuel is_file component_dir deployment root :
  (∀ k, ancestor (S k) component_dir ≠ parent root) →
  (∀ k, is_file (child (ancestor (S k) component_dir) "CMakeLists.txt")
        = false) →
  find_nearest_cmake_lists fuel is_file component_dir deployment (Some root)
  = None.
Proof.
  intros Hout Hno. unfold find_nearest_cmake_lists. cbn [search_passes].
  by rewrite (search_up_never_ends _ _ _ _ Hout Hno).
Qed.

Lemma ancestor_top k : ancestor k (mkPath true []) = mkPath true [].
Proof. induction k as [|k IH]; [done|]. exact IH. Qed.

Lemma ancestor_of_dir_XC k : ancestor (S k) (mkPath true ["X"; "C"]) ≠ dir_A.
Proof.
  destruct k as [|k]; [discriminate|].
  change (ancestor k (mkPath true []) ≠ dir_A). by rewrite ancestor_top.
Qed.

Lemma find_nearest_cmake_lists_never_returns_outside_witness :
  find_nearest_cmake_lists 1000 (λ _, false)
    (mkPath true ["X"; "C"]) dir_B (Some dir_B)
  = None.
Proof.
  refine (find_nearest_cmake_lists_never_returns_outside 1000 (λ _, false)
            (mkPath true ["X"; "C"]) dir_B dir_B _ _).
  - intros k. exact (ancestor_of_dir_XC k).
  - reflexivity.
Defined.

(** ** run_impl: the destination without [Common], and the whole run *)

Lemma sort_by_len_head l h rest :
  sort_by_len l = h :: rest →
  ∃ pre post,
    l = pre ++ h :: post
    ∧ (∀ c, c ∈ pre → len h < len c)
    ∧ (∀ c, c ∈ post → len h ≤ len c).
Proof.
  revert h rest. induction l as [|x l IH]; intros h rest H; [done|].
  simpl in H. destruct (sort_by_len l) as [|h' r'] eqn:E.
  - pose proof (sort_by_len_perm l) as Hp. rewrite E in Hp.
    apply Permutation_nil_l in Hp. subst l.
    simpl in H. injection H as <- <-. exists [], [].
    split; [done|]. split; intros c Hc; by apply elem_of_nil in Hc.
  - destruct (IH _ _ eq_refl) as (pre & post & -> & Hpre & Hpost).
    simpl in H. destruct (len x <=? len h') eqn:Hle.
    + apply Nat.leb_le in Hle. injection H as <- _.
      exists [], (pre ++ h' :: post). split; [done|].
      split; [intros c Hc; by apply elem_of_nil in Hc|].
      intros c Hc. apply elem_of_app in Hc as [Hc|Hc].
      * specialize (Hpre _ Hc). lia.
      * apply elem_of_cons in Hc as [->|Hc]; [done|].
        specialize (Hpost _ Hc). lia.
    + apply Nat.leb_gt in Hle. injection H as <- _.
      exists (x :: pre), post. split; [done|]. split; [|done].
      intros c Hc. apply elem_of_cons in Hc as [->|Hc]; [done|]. by apply Hpre.
Qed.

(** Without a candidate that holds [Common], the destination is the
    shortest candidate, and among several of the shortest the one [glob]
    listed first. *)
Theorem choose_cpp_dest_without_common cpp_files :
  cpp_files ≠ [] →
  (∀ c, c ∈ cpp_files → str_in "Common" c = false) →
  ∃ dest pre post,
    choose_cpp_dest (sort_by_len cpp_files) = Some dest
    ∧ cpp_files = pre ++ dest :: post
    ∧ (∀ c, c ∈ pre → len dest < len c)
    ∧ (∀ c, c ∈ post → len dest ≤ len c).
Proof.
  intros Hne Hnone. unfold choose_cpp_dest.
  assert (filter (λ name, str_in "Common" name = true) (sort_by_len cpp_files)
          = []) as ->.
  { destruct (filter _ (sort_by_len cpp_files)) as [|c cs] eqn:Ef; [done|].
    assert (c ∈ filter (λ name, str_in "Common" name = true)
                  (sort_by_len cpp_files)) as Hc
      by (rewrite Ef; apply list_elem_of_here).
    apply list_elem_of_filter in Hc as [HP Hc].
    rewrite (sort_by_len_perm cpp_files) in Hc.
    by rewrite (Hnone c Hc) in HP. }
  destruct (sort_by_len cpp_files) as [|h rest] eqn:E.
  - pose proof (sort_by_len_perm cpp_files) as Hp. rewrite E in Hp.
    by apply Permutation_nil_l in Hp.
  - destruct (sort_by_len_head _ _ _ E) as (pre & post & ? & ? & ?).
    by exists h, pre, post.
Qed.

Lemma choose_cpp_dest_without_common_witness :
  ∃ dest pre post,
    choose_cpp_dest (sort_by_len ["u/Long.cpp"; "u/Bb.cpp"; "u/Aa.cpp"])
    = Some dest
    ∧ ["u/Long.cpp"; "u/Bb.cpp"; "u/Aa.cpp"] = pre ++ dest :: post
    ∧ (∀ c, c ∈ pre → len dest < len c)
    ∧ (∀ c, c ∈ post → len dest ≤ len c).
Proof.
  refine (choose_cpp_dest_without_common
            ["u/Long.cpp"; "u/Bb.cpp"; "u/Aa.cpp"] _ _).
  - discriminate.
  - intros c Hc.
    repeat (apply elem_of_cons in Hc as [->|Hc]; [reflexivity|]).
    by apply elem_of_nil in Hc.
Defined.

Lemma merge_stubs_run w hpp_src cpp_src hpp_dest cpp_dest stub_h stub_c :
  ends_with ".hpp-template" hpp_src = true →
  ends_with ".cpp-template" cpp_src = true →
  ends_with ".hpp" hpp_dest = true →
  ends_with ".cpp" cpp_dest = true →
  files w !! hpp_src = Some stub_h →
  files w !! cpp_src = Some stub_c →
  merge_stubs hpp_src cpp_src hpp_dest cpp_dest w =
    (Return true,
     mkWorld
       (merged (files w) hpp_src cpp_src hpp_dest cpp_dest stub_h stub_c)
       (stdin w) (stdout w)).
Proof.
  intros Ehs Ecs Ehd Ecd Hh Hc.
  assert (hpp_src ≠ cpp_src) as N1
    by (eapply ends_with_differ; [exact Ehs|exact Ecs|reflexivity]).
  assert (hpp_src ≠ hpp_dest) as N2
    by (eapply ends_with_differ; [exact Ehs|exact Ehd|reflexivity]).
  assert (hpp_src ≠ cpp_dest) as N3
    by (eapply ends_with_differ; [exact Ehs|exact Ecd|reflexivity]).
  assert (cpp_src ≠ hpp_dest) as N4
    by (eapply ends_with_differ; [exact Ecs|exact Ehd|reflexivity]).
  assert (cpp_src ≠ cpp_dest) as N5
    by (eapply ends_with_differ; [exact Ecs|exact Ecd|reflexivity]).
  assert (hpp_dest ≠ cpp_dest) as N6
    by (eapply ends_with_differ; [exact Ehd|exact Ecd|reflexivity]).
  unfold merge_stubs, for_each, mbind, io_bind, mret, io_ret, merged.
  rewrite (copy_without_header_run _ _ _ _ Hh).
  erewrite copy_without_header_run
    by (cbn [files]; rewrite lookup_insert_ne by done; exact Hc).
  cbn [files stdin stdout].
  rewrite (lookup_insert_ne _ hpp_dest cpp_dest) by done.
  erewrite os_remove_run
    by (cbn [files]; rewrite !lookup_insert_ne by done; exact Hh).
  erewrite os_remove_run
    by (cbn [files]; rewrite lookup_delete_ne by done;
        rewrite !lookup_insert_ne by done; exact Hc).
  reflexivity.
Qed.

Section RunImplFacts.

Variable build_load : string → IO unit.
Variable build_execute : string → IO unit.
Variable found : string → gmap string string → list string.

(** The whole run. After the build is loaded, with a header and a source
    destination listed, an accepted confirmation and a build that leaves
    both stubs, [run_impl] returns [True] and the files are those the build
    left, with each stub merged into its destination and removed. *)
Theorem run_impl_generates_and_merges
    path w w1 hpp_dest hpp_rest cpp_files cpp_dest answer ins w3
    hpp_src hpp_more cpp_src cpp_more stub_h stub_c :
  build_load path w = (Return (), w1) →
  found (path +:+ "/*.hpp") (files w1) = hpp_dest :: hpp_rest →
  found (path +:+ "/*.cpp") (files w1) = cpp_files →
  choose_cpp_dest (sort_by_len cpp_files) = Some cpp_dest →
  stdin w1 = answer :: ins → accepts answer →
  build_execute path
    (mkWorld (files w1) ins (stdout w1 ++ [impl_prompt hpp_dest cpp_dest]))
  = (Return (), w3) →
  found (path +:+ "/*.hpp-template") (files w3) = hpp_src :: hpp_more →
  found (path +:+ "/*.cpp-template") (files w3) = cpp_src :: cpp_more →
  ends_with ".hpp-template" hpp_src = true →
  ends_with ".cpp-template" cpp_src = true →
  ends_with ".hpp" hpp_dest = true →
  ends_with ".cpp" cpp_dest = true →
  files w3 !! hpp_src = Some stub_h →
  files w3 !! cpp_src = Some stub_c →
  run_impl build_load build_execute (glob_with found) path w =
    (Return true,
     mkWorld
       (merged (files w3) hpp_src cpp_src hpp_dest cpp_dest stub_h stub_c)
       (stdin w3) (stdout w3)).
Proof.
  intros Hload Hhpp Hcpp Hchoose Hin Hyes Hexec Hht Hct E1 E2 E3 E4 Hh Hc.
  unfold run_impl, mbind, io_bind, glob_with. rewrite Hload.
  rewrite Hhpp, Hcpp, Hchoose.
  erewrite confirm_accepts by eauto. cbn [negb].
  unfold impl_prompt in Hexec. rewrite Hexec, Hht, Hct.
  by apply merge_stubs_run.
Qed.

(** A declined confirmation ends the run with [False] before the build
    target is executed: the result does not depend on what executing it
    would do, and the files are as loading the build left them. *)
Theorem run_impl_declined
    path w w1 hpp_dest hpp_rest cpp_files cpp_dest answer ins :
  build_load path w = (Return (), w1) →
  found (path +:+ "/*.hpp") (files w1) = hpp_dest :: hpp_rest →
  found (path +:+ "/*.cpp") (files w1) = cpp_files →
  choose_cpp_dest (sort_by_len cpp_files) = Some cpp_dest →
  stdin w1 = answer :: ins → declines answer →
  run_impl build_load build_execute (glob_with found) path w =
    (Return false,
     mkWorld (files w1) ins (stdout w1 ++ [impl_prompt hpp_dest cpp_dest])).
Proof.
  intros Hload Hhpp Hcpp Hchoose Hin Hno.
  unfold run_impl, mbind, io_bind, glob_with. rewrite Hload.
  rewrite Hhpp, Hcpp, Hchoose.
  by erewrite confirm_declines by eauto.
Qed.

(** Without a header destination or without a source destination the run
    ends with the warning and [False]; nothing is asked and the build target
    is not executed. *)
Theorem run_impl_without_destination path w w1 :
  build_load path w = (Return (), w1) →
  found (path +:+ "/*.hpp") (files w1) = []
  ∨ found (path +:+ "/*.cpp") (files w1) = [] →
  run_impl build_load build_execute (glob_with found) path w =
    (Return false,
     mkWorld (files w1) (stdin w1) (stdout w1 ++ [no_destination_line])).
Proof.
  intros Hload Hnone.
  unfold run_impl, mbind, io_bind, glob_with. rewrite Hload.
  destruct Hnone as [-> | ->]; [done|].
  destruct (found (path +:+ "/*.hpp") _) as [|h hs]; [done|].
  change (choose_cpp_dest (sort_by_len [])) with (@None string). done.
Qed.

(** No partial merge: when the build leaves no header stub or no source
    stub, the run ends with the warning and [False], and the files are
    exactly those the build left, stub of the other kind included. *)
Theorem run_impl_without_stub
    path w w1 hpp_dest hpp_rest cpp_files cpp_dest answer ins w3 :
  build_load path w = (Return (), w1) →
  found (path +:+ "/*.hpp") (files w1) = hpp_dest :: hpp_rest →
  found (path +:+ "/*.cpp") (files w1) = cpp_files →
  choose_cpp_dest (sort_by_len cpp_files) = Some cpp_dest →
  stdin w1 = answer :: ins → accepts answer →
  build_execute path
    (mkWorld (files w1) ins (stdout w1 ++ [impl_prompt hpp_dest cpp_dest]))
  = (Return (), w3) →
  found (path +:+ "/*.hpp-template") (files w3) = []
  ∨ found (path +:+ "/*.cpp-template") (files w3) = [] →
  run_impl build_load build_execute (glob_with found) path w =
    (Return false,
     mkWorld (files w3) (stdin w3) (stdout w3 ++ [no_stub_line])).
Proof.
  intros Hload Hhpp Hcpp Hchoose Hin Hyes Hexec Hnone.
  unfold run_impl, mbind, io_bind, glob_with. rewrite Hload.
  rewrite Hhpp, Hcpp, Hchoose.
  erewrite confirm_accepts by eauto. cbn [negb].
  unfold impl_prompt in Hexec. rewrite Hexec.
  destruct Hnone as [-> | ->]; [done|].
  by destruct (found (path +:+ "/*.hpp-template") _).
Qed.

End RunImplFacts.

Lemma run_impl_generates_and_merges_witness :
  run_impl sample_build_load sample_build_execute (glob_with sample_found)
    "u" (sample_start ["yes"])
  = (Return true,
     mkWorld
       (merged (files sample_built) "u/C.hpp-template" "u/C.cpp-template"
          "u/C.hpp" "u/CCommon.cpp" sample_stub sample_stub)
       (stdin sample_built) (stdout sample_built)).
Proof.
  refine (run_impl_generates_and_merges
            sample_build_load sample_build_execute sample_found
            "u" (sample_start ["yes"]) (sample_start ["yes"])
            "u/C.hpp" [] ["u/CCommon.cpp"; "u/C.cpp"] "u/CCommon.cpp"
            "yes" [] sample_built
            "u/C.hpp-template" [] "u/C.cpp-template" [] sample_stub sample_stub
            _ _ _ _ _ _ _ _ _ _ _ _ _ _ _); by_evaluation.
Defined.

Lemma run_impl_declined_witness :
  run_impl sample_build_load sample_build_execute (glob_with sample_found)
    "u" (sample_start ["n"])
  = (Return false,
     mkWorld (files (sample_start ["n"])) []
       (stdout (sample_start ["n"])
        ++ [impl_prompt "u/C.hpp" "u/CCommon.cpp"])).
Proof.
  refine (run_impl_declined
            sample_build_load sample_build_execute sample_found
            "u" (sample_start ["n"]) (sample_start ["n"])
            "u/C.hpp" [] ["u/CCommon.cpp"; "u/C.cpp"] "u/CCommon.cpp"
            "n" [] _ _ _ _ _ _); by_evaluation.
Defined.

Lemma run_impl_without_destination_witness :
  run_impl sample_build_load sample_build_execute (glob_with sample_found)
    "u" (mkWorld {[ "u/C.hpp" := "" ]} ["yes"] [])
  = (Return false,
     mkWorld (files (mkWorld {[ "u/C.hpp" := "" ]} ["yes"] []))
       (stdin (mkWorld {[ "u/C.hpp" := "" ]} ["yes"] []))
       (stdout (mkWorld {[ "u/C.hpp" := "" ]} ["yes"] [])
        ++ [no_destination_line])).
Proof.
  refine (run_impl_without_destination
            sample_build_load sample_build_execute sample_found
            "u" (mkWorld {[ "u/C.hpp" := "" ]} ["yes"] [])
            (mkWorld {[ "u/C.hpp" := "" ]} ["yes"] []) _ _).
  - reflexivity.
  - right. reflexivity.
Defined.

Lemma run_impl_without_stub_witness :
  run_impl sample_build_load sample_build_half (glob_with sample_found)
    "u" (sample_start ["yes"])
  = (Return false,
     mkWorld (files sample_half_built) (stdin sample_half_built)
       (stdout sample_half_built ++ [no_stub_line])).
Proof.
  refine (run_impl_without_stub
            sample_build_load sample_build_half sample_found
            "u" (sample_start ["yes"]) (sample_start ["yes"])
            "u/C.hpp" [] ["u/CCommon.cpp"; "u/C.cpp"] "u/CCommon.cpp"
            "yes" [] sample_half_built _ _ _ _ _ _ _ _); by_evaluation.
Defined.

(** ** add_unit_tests: moving the generated test files *)

Lemma move_test_file_run file w :
  move_test_file file w =
    (Return (),
     mkWorld
       (match files w !! file with
        | Some text => <[test_destination file := text]> (delete file (files w))
        | None => files w
        end) (stdin w) (stdout w)).
Proof.
  unfold move_test_file, mbind, io_bind, os_path_isfile, os_rename.
  destruct (files w !! file) as [text|] eqn:E.
  - rewrite bool_decide_eq_true_2 by eauto. by rewrite E.
  - rewrite bool_decide_eq_false_2 by (by intros [? ?]).
    unfold mret, io_ret. by destruct w.
Qed.

Lemma move_loop names :
  NoDup names →
  (∀ n n', n ∈ names → n' ∈ names → n ≠ test_destination n') →
  ∀ w, ∃ m',
    for_each names move_test_file w
    = (Return (), mkWorld m' (stdin w) (stdout w))
    ∧ (∀ n, n ∈ names →
         m' !! n = None
         ∧ m' !! test_destination n
           = match files w !! n with
             | Some text => Some text
             | None => files w !! test_destination n
             end)
    ∧ (∀ p, p ∉ names → (∀ n, n ∈ names → p ≠ test_destination n) →
         m' !! p = files w !! p).
Proof.
  induction names as [|x ns IH]; intros Hnodup Hsep w.
  - exists (files w). split; [by destruct w|]. split; [|done].
    intros n Hn. by apply elem_of_nil in Hn.
  - apply NoDup_cons in Hnodup as [Hx Hns].
    assert (∀ n n', n ∈ ns → n' ∈ ns → n ≠ test_destination n') as Hsep'.
    { intros n n' Hn Hn'. apply Hsep; by apply list_elem_of_further. }
    assert (x ≠ test_destination x) as Hxx
      by (apply Hsep; apply list_elem_of_here).
    cbn [for_each]. unfold mbind, io_bind at 1.
    rewrite move_test_file_run.
    set (m1 := match files w !! x with
               | Some text => <[test_destination x := text]> (delete x (files w))
               | None => files w
               end).
    destruct (IH Hns Hsep' (mkWorld m1 (stdin w) (stdout w)))
      as (m' & Hrun & Hmoved & Hother).
    cbn [files stdin stdout] in *.
    exists m'. split; [exact Hrun|].
    assert (∀ p, p ≠ x → p ≠ test_destination x → m1 !! p = files w !! p)
      as Hm1.
    { intros p P1 P2. unfold m1. destruct (files w !! x); [|done].
      rewrite lookup_insert_ne by done. by rewrite lookup_delete_ne. }
    assert (m1 !! x = None) as Hm1x.
    { unfold m1. destruct (files w !! x) eqn:E; [|done].
      rewrite lookup_insert_ne by done. apply lookup_delete_eq. }
    assert (m1 !! test_destination x
            = match files w !! x with
              | Some text => Some text
              | None => files w !! test_destination x
              end) as Hm1d.
    { unfold m1. destruct (files w !! x); [|done]. apply lookup_insert_eq. }
    split.
    + intros n Hn. apply elem_of_cons in Hn as [->|Hn].
      * split.
        -- rewrite Hother; [done|done|].
           intros n Hn. apply Hsep;
             [apply list_elem_of_here | by apply list_elem_of_further].
        -- rewrite Hother; [done| |].
           ++ intros Hd. apply (Hsep (test_destination x) x);
                [by apply list_elem_of_further|apply list_elem_of_here|done].
           ++ intros n Hn E. apply (inj _) in E. by subst n.
      * destruct (Hmoved n Hn) as [Ha Hb]. split; [done|]. rewrite Hb.
        assert (n ≠ x) as Nx by (by intros ->).
        assert (n ≠ test_destination x) as Nd
          by (apply Hsep; [by apply list_elem_of_further
                          |apply list_elem_of_here]).
        assert (test_destination n ≠ x) as Dx.
        { intros E. symmetry in E. revert E. apply Hsep;
            [apply list_elem_of_here|by apply list_elem_of_further]. }
        assert (test_destination n ≠ test_destination x) as Dd
          by (by intros E; apply (inj _) in E).
        by rewrite !Hm1.
    + intros p Hp Hpd.
      apply not_elem_of_cons in Hp as [Px Pns].
      rewrite Hother; [|done|].
      * apply Hm1; [done|]. apply Hpd, list_elem_of_here.
      * intros n Hn. apply Hpd. by apply list_elem_of_further.
Qed.

Lemma test_files_separate n n' :
  n ∈ test_files → n' ∈ test_files → n ≠ test_destination n'.
Proof.
  assert (Forall (λ n, Forall (λ n', n ≠ test_destination n') test_files)
            test_files) as H by by_evaluation.
  rewrite Forall_forall in H. intros Hn Hn'.
  specialize (H n Hn). rewrite Forall_forall in H. by apply H.
Qed.

(** The loop never raises. Each of the seven test files present in the unit
    directory ends up under [test/ut] with its text and is gone from the
    unit directory; one that is absent is passed over, and what was at its
    destination stays; every other file is untouched. *)
Theorem move_test_files_relocates w :
  ∃ m',
    move_test_files w = (Return (), mkWorld m' (stdin w) (stdout w))
    ∧ (∀ file, file ∈ test_files →
         m' !! file = None
         ∧ m' !! test_destination file
           = match files w !! file with
             | Some text => Some text
             | None => files w !! test_destination file
             end)
    ∧ (∀ p, p ∉ test_files →
         (∀ file, file ∈ test_files → p ≠ test_destination file) →
         m' !! p = files w !! p).
Proof.
  apply move_loop.
  - by_evaluation.
  - apply test_files_separate.
Qed.

Lemma move_test_files_relocates_witness :
  ∃ m',
    move_test_files
      (mkWorld {[ "Tester.hpp" := "class Tester;"; "Comp.cpp" := "int x;" ]}
         [] [])
    = (Return (), mkWorld m' [] [])
    ∧ m' !! "Tester.hpp" = None
    ∧ m' !! "test/ut/Tester.hpp" = Some "class Tester;"
    ∧ m' !! "test/ut/TestMain.cpp" = None
    ∧ m' !! "Comp.cpp" = Some "int x;".
Proof.
  destruct (move_test_files_relocates
              (mkWorld {[ "Tester.hpp" := "class Tester;";
                          "Comp.cpp" := "int x;" ]} [] []))
    as (m' & Hrun & Hmoved & Hother).
  exists m'. split; [exact Hrun|].
  destruct (Hmoved "Tester.hpp") as [H1 H2]; [by_evaluation|].
  destruct (Hmoved "TestMain.cpp") as [_ H3]; [by_evaluation|].
  split; [exact H1|]. split; [exact H2|]. split; [exact H3|].
  apply Hother; [by_evaluation|].
  intros file Hfile.
  repeat (apply elem_of_cons in Hfile as [->|Hfile]; [discriminate|]).
  by apply elem_of_nil in Hfile.
Defined.

(** ** make_namespace *)

Lemma replace_sep_app s t :
  replace_sep (s +:+ t) = replace_sep s +:+ replace_sep t.
Proof.
  induction s as [|c s IH]; [done|].
  rewrite app_cons. cbn [replace_sep]. case_bool_decide.
  - by rewrite IH, app_assoc_str.
  - by rewrite IH.
Qed.

Lemma replace_sep_clean s :
  has_char "/"%char s = false → replace_sep s = s.
Proof.
  induction s as [|c s IH]; [done|]. cbn [has_char replace_sep].
  intros [Hc Hs]%orb_false_elim. rewrite Hc. by rewrite IH.
Qed.

Lemma replace_sep_join parts :
  Forall (λ x, has_char "/"%char x = false) parts →
  replace_sep (join_sep "/" parts) = join_sep "::" parts.
Proof.
  induction 1 as [|x parts Hx Hparts IH]; [done|].
  destruct parts as [|y parts].
  - by apply replace_sep_clean.
  - change (join_sep "/" (x :: y :: parts))
      with (x +:+ "/" +:+ join_sep "/" (y :: parts)).
    change (join_sep "::" (x :: y :: parts))
      with (x +:+ "::" +:+ join_sep "::" (y :: parts)).
    rewrite !replace_sep_app, IH, (replace_sep_clean _ Hx). reflexivity.
Qed.

(** For a directory [x] that lies below the deployment, by the components
    [l] and then [x] itself, the namespace is the name of the deployment
    and the components [l], joined by [::]; the directory [x] itself is not
    part of it. *)
Theorem make_namespace_below deployment l x :
  path_name deployment ≠ "" →
  Forall (λ part, has_char "/"%char part = false)
    (path_name deployment :: l) →
  make_namespace deployment (descend deployment (l ++ [x]))
  = Some (join_sep "::" (path_name deployment :: l)).
Proof.
  intros Hname Hclean. unfold make_namespace, relative_to.
  cbn [descend anchored names].
  rewrite bool_decide_eq_true_2 by (by rewrite take_app_length).
  cbn [mbind option_bind]. rewrite drop_app_length.
  unfold path_under. rewrite (bool_decide_eq_false_2 _ Hname).
  unfold parent. cbn [anchored names].
  change ([path_name deployment] ++ l ++ [x])
    with ((path_name deployment :: l) ++ [x]).
  rewrite removelast_last. unfold path_str. cbn [anchored names].
  by rewrite replace_sep_join.
Qed.

Lemma make_namespace_below_witness :
  make_namespace (mkPath true ["home"; "Ref"])
    (descend (mkPath true ["home"; "Ref"]) (["Drv"; "Ports"] ++ ["Ping"]))
  = Some (join_sep "::"
            (path_name (mkPath true ["home"; "Ref"]) :: ["Drv"; "Ports"])).
Proof.
  refine (make_namespace_below (mkPath true ["home"; "Ref"])
            ["Drv"; "Ports"] "Ping" _ _); by_evaluation.
Defined.

(** [make_namespace] fails, with the [ValueError] of [relative_to], exactly
    when the directory is not the deployment or a directory below it. *)
Theorem make_namespace_fails_iff_outside deployment cwd :
  make_namespace deployment cwd = None
  ↔ ¬ (anchored cwd = anchored deployment
       ∧ ∃ below, names cwd = names deployment ++ below).
Proof.
  unfold make_namespace, relative_to. case_bool_decide as E.
  - split; [done|]. intros Hout. exfalso. apply Hout.
    destruct E as [Ea Et]. split; [done|].
    exists (drop (length (names deployment)) (names cwd)).
    rewrite <- Et at 1. by rewrite take_drop.
  - split; [|done]. intros _ [Ea [below Eb]]. apply E. split; [done|].
    rewrite Eb. by rewrite take_app_length.
Qed.

Lemma make_namespace_fails_iff_outside_witness :
  make_namespace (mkPath true ["home"; "Ref"]) (mkPath true ["home"; "Other"])
  = None.
Proof.
  refine (proj2 (make_namespace_fails_iff_outside
                   (mkPath true ["home"; "Ref"])
                   (mkPath true ["home"; "Other"])) _).
  intros [_ [below E]]. discriminate E.
Defined.
